(** * S3 file provider with filename sanitisation: a shallow embedding

    Embedded sources:
    - [src/backend/src/utils/file-utils.ts]   ([sanitizeFileName])
    - [src/backend/src/modules/s3-file/service.ts]
      ([S3FileProviderService]: [upload], [delete],
       [getPresignedUploadUrl], [getAsBuffer])

    JavaScript strings are sequences of UTF-16 code units, so a string is
    a [list N]; the platform functions the code calls ([path.extname],
    number-to-string conversion, [String.prototype.replace], ...) are
    written out next to the code that uses them. *)

From Stdlib Require Import List ZArith NArith Bool Lia String Ascii.
Import ListNotations.

Set Implicit Arguments.
Local Open Scope list_scope.

(** ** JavaScript strings *)

Module JS.

Definition jsstring : Type := list N.

(** An ASCII literal as a JavaScript string. *)
Definition lit (s : string) : jsstring :=
  map N_of_ascii (list_ascii_of_string s).
Arguments lit _%_string.

Definition CHAR_DOT : N := 46.
Definition CHAR_FORWARD_SLASH : N := 47.
Definition CHAR_EQUALS : N := 61.

Fixpoint eqb (a b : jsstring) : bool :=
  match a, b with
  | [], [] => true
  | x :: a', y :: b' => N.eqb x y && eqb a' b'
  | _, _ => false
  end.

(** Truthiness of a possibly absent string: [undefined], [null] and the
    empty string are falsy. *)
Definition truthy (s : option jsstring) : bool :=
  match s with
  | Some (_ :: _) => true
  | _ => false
  end.

(** [s.startsWith(p)] *)
Fixpoint startsWith (p s : jsstring) : bool :=
  match p, s with
  | [], _ => true
  | x :: p', y :: s' => N.eqb x y && startsWith p' s'
  | _ :: _, [] => false
  end.

(** [s.replace(pat, '')] with a string pattern: the first occurrence of
    [pat] is removed, the rest is kept. *)
Fixpoint removeFirst (pat s : jsstring) : jsstring :=
  if startsWith pat s then skipn (List.length pat) s
  else match s with
       | [] => []
       | c :: s' => c :: removeFirst pat s'
       end.

(** [s.replace(/\/$/, '')]: without the [m] flag [$] matches at the end of
    the input only, so exactly one final slash is removed when there is
    one. *)
Definition removeTrailingSlash (s : jsstring) : jsstring :=
  match rev s with
  | c :: r => if N.eqb c CHAR_FORWARD_SLASH then rev r else s
  | [] => s
  end.

(** [s.slice(a, b)] for [0 <= a <= b]. *)
Definition slice (s : jsstring) (a b : Z) : jsstring :=
  firstn (Z.to_nat (b - a)) (skipn (Z.to_nat a) s).

(** *** Number to string

    [`${n}`] for an integer [n] below 1e21 in absolute value is its
    decimal expansion, with a leading minus sign for negative values. *)

Definition digitChar (d : Z) : N := 48 + Z.to_N d.

(** Decimal digits of [n >= 0], least significant first. *)
Fixpoint decimalRev (fuel : nat) (n : Z) : list N :=
  match fuel with
  | O => []
  | S fuel' =>
      digitChar (n mod 10) ::
      (if (n / 10 =? 0)%Z then [] else decimalRev fuel' (n / 10))
  end.

Definition decimalFuel (n : Z) : nat := S (Z.to_nat (Z.log2 n)).

Definition numberToString (n : Z) : jsstring :=
  if (n <? 0)%Z
  then 45%N :: rev (decimalRev (decimalFuel (- n)) (- n))
  else rev (decimalRev (decimalFuel n) n).

End JS.

Import JS.

(** ** [path.extname] (POSIX flavour of Node's [path] module)

    [path] is a platform module, not part of the repository.  The
    definition transcribes the loop of Node's [path.posix.extname]: the
    string is scanned from its last code unit to its first, tracking the
    position of the right-most dot of the last path segment. *)

Module Path.

Record ExtState : Type := mkExtState {
  startDot : Z;
  startPart : Z;
  end_ : Z;
  matchedSlash : bool;
  preDotState : Z
}.

Definition initial : ExtState :=
  {| startDot := -1; startPart := 0; end_ := -1;
     matchedSlash := true; preDotState := 0 |}.

(** One run of the [for (i = path.length - 1; i >= 0; --i)] loop over the
    code units still to be visited, given right-to-left; [i] is the number
    of code units to the left of the current one. *)
Fixpoint extnameLoop (unread : list N) (st : ExtState) : ExtState :=
  match unread with
  | [] => st
  | code :: rest =>
      let i := Z.of_nat (List.length rest) in
      if N.eqb code CHAR_FORWARD_SLASH then
        if negb (matchedSlash st)
        then (* break *)
          mkExtState (startDot st) (i + 1) (end_ st) (matchedSlash st)
                     (preDotState st)
        else (* continue *) extnameLoop rest st
      else
        let st1 :=
          if (end_ st =? -1)%Z
          then mkExtState (startDot st) (startPart st) (i + 1) false
                          (preDotState st)
          else st in
        let st2 :=
          if N.eqb code CHAR_DOT then
            if (startDot st1 =? -1)%Z
            then mkExtState i (startPart st1) (end_ st1) (matchedSlash st1)
                            (preDotState st1)
            else if negb (preDotState st1 =? 1)%Z
            then mkExtState (startDot st1) (startPart st1) (end_ st1)
                            (matchedSlash st1) 1
            else st1
          else if negb (startDot st1 =? -1)%Z
          then mkExtState (startDot st1) (startPart st1) (end_ st1)
                          (matchedSlash st1) (-1)
          else st1 in
        extnameLoop rest st2
  end.

Definition extname (path : jsstring) : jsstring :=
  let st := extnameLoop (rev path) initial in
  if (startDot st =? -1)%Z
     || (end_ st =? -1)%Z
     || (preDotState st =? 0)%Z
     || ((preDotState st =? 1)%Z
         && (startDot st =? end_ st - 1)%Z
         && (startDot st =? startPart st + 1)%Z)
  then []
  else slice path (startDot st) (end_ st).

(** Auxiliary: character classes of a path, and one iteration of the
    loop on a character that is not a slash, as a function of the
    state. *)

Definition notSlash (c : N) : bool := negb (N.eqb c CHAR_FORWARD_SLASH).
Definition notDot (c : N) : bool := negb (N.eqb c CHAR_DOT).
Definition plain (c : N) : bool := notSlash c && notDot c.

Definition visit (i : Z) (code : N) (st : ExtState) : ExtState :=
  let e := if (end_ st =? -1)%Z then (i + 1)%Z else end_ st in
  let m := if (end_ st =? -1)%Z then false else matchedSlash st in
  if N.eqb code CHAR_DOT then
    if (startDot st =? -1)%Z
    then mkExtState i (startPart st) e m (preDotState st)
    else mkExtState (startDot st) (startPart st) e m 1
  else
    if (startDot st =? -1)%Z
    then mkExtState (-1) (startPart st) e m (preDotState st)
    else mkExtState (startDot st) (startPart st) e m (-1).

End Path.

(** ** [sanitizeFileName] (file-utils.ts)

    [now] is the value [Date.now()] returns and [uniqueId] the token
    [ulid()] returns during the call; [None] stands for an absent
    ([undefined] / [null]) argument. *)

Definition sanitizeFileName (now : Z) (uniqueId : jsstring)
    (originalName : option jsstring) : jsstring :=
  if negb (truthy originalName) then
    lit "prod_" ++ numberToString now ++ lit "_" ++ uniqueId ++ lit ".bin"
  else
    let ext := match originalName with
               | Some name => Path.extname name
               | None => []
               end in
    let timestamp := now in
    lit "prod_" ++ numberToString timestamp ++ lit "_" ++ uniqueId ++ ext.

(** ** The provider's data (service.ts) *)

Definition Buffer : Type := list Byte.byte.

Inductive ErrorType : Type := INVALID_DATA | NOT_FOUND | UNEXPECTED_STATE.

(** A thrown value: a [MedusaError] of the provider, or an error of the
    SDK or the platform; both carry a [message]. *)
Inductive Thrown : Type :=
| MedusaError (type : ErrorType) (message : jsstring)
| PlatformError (message : jsstring).

Definition message (e : Thrown) : jsstring :=
  match e with
  | MedusaError _ m => m
  | PlatformError m => m
  end.

Record S3FileProviderOptions : Type := mkOptions {
  file_url : option jsstring;
  access_key_id : jsstring;
  secret_access_key : jsstring;
  region : jsstring;
  bucket : jsstring;
  endpoint : option jsstring;
  s3ForcePathStyle : option bool;
  signatureVersion : option jsstring
}.

(** Truthiness of an optional boolean flag. *)
Definition flagSet (b : option bool) : bool :=
  match b with
  | Some true => true
  | _ => false
  end.

(** The fields of a service instance that the operations read. *)
Record Service : Type := mkService {
  config_ : S3FileProviderOptions;
  this_bucket : jsstring;
  fileUrl : option jsstring
}.

Record PutObjectInput : Type := mkPut {
  put_Bucket : jsstring;
  put_Key : jsstring;
  put_Body : option Buffer;
  put_ContentType : option jsstring;
  put_Metadata : list (jsstring * jsstring);
  put_ACL : option jsstring
}.

Inductive Command : Type :=
| PutObjectCommand (input : PutObjectInput)
| DeleteObjectCommand (Bucket Key : jsstring)
| GetObjectCommand (Bucket Key : jsstring).

(** A readable stream as the provider consumes it: the chunks of its
    ['data'] events, then ['end'], or ['error'] with the given value. *)
Record Readable : Type := mkReadable {
  chunks : list Buffer;
  failure : option Thrown
}.

Record CommandOutput : Type := mkOutput {
  Body : option Readable
}.

Inductive Level : Type := info | warn | error.

(** What an operation does to the outside, in order. *)
Inductive Event : Type :=
| Sent (c : Command)
| Presigned (c : Command) (expiresIn : Z)
| Logged (l : Level) (msg : jsstring).

Inductive Encoding : Type := base64 | binary.

Record ProviderFileResultDTO : Type := mkResult {
  url : jsstring;
  key : jsstring
}.

Record ProviderGetFileDTO : Type := mkGetFile {
  fileKey : option jsstring
}.

Record ProviderGetPresignedUploadUrlDTO : Type := mkPresignedUpload {
  presign_filename : option jsstring
}.

Inductive Outcome (A : Type) : Type :=
| Return (a : A)
| Throw (e : Thrown).
Arguments Return {A} a.
Arguments Throw {A} e.

(** [x?.fileKey] on a possibly absent record. *)
Definition optFileKey (f : option ProviderGetFileDTO) : option jsstring :=
  match f with
  | Some d => fileKey d
  | None => None
  end.

Definition optFilename (f : option ProviderGetPresignedUploadUrlDTO)
  : option jsstring :=
  match f with
  | Some d => presign_filename d
  | None => None
  end.

(** [/^[A-Za-z0-9+/]+=*$/] *)
Definition isBase64Alphabet (c : N) : bool :=
  ((65 <=? c) && (c <=? 90))%N || ((97 <=? c) && (c <=? 122))%N
  || ((48 <=? c) && (c <=? 57))%N || N.eqb c 43 || N.eqb c 47.

Fixpoint dropWhile (f : N -> bool) (s : jsstring) : jsstring :=
  match s with
  | [] => []
  | c :: s' => if f c then dropWhile f s' else s
  end.

(** The greedy run of alphabet characters must be non-empty and what
    follows it must be [=] signs only; the two character classes are
    disjoint, so no backtracking can find another match. *)
Definition matchesBase64Pattern (s : jsstring) : bool :=
  match s with
  | [] => false
  | c :: _ =>
      isBase64Alphabet c
      && forallb (N.eqb CHAR_EQUALS) (dropWhile isBase64Alphabet s)
  end.

(** ** The provider's operations *)

(** The object store behind [this.client] and the platform functions the
    provider calls.  [s3_send] is one request to the store,
    [getSignedUrl] the local signing step. *)
Class Platform : Type := {
  Store : Type;
  s3_send : Command -> Store -> (Thrown + CommandOutput) * Store;
  getSignedUrl : Command -> Z -> Store -> Thrown + jsstring;
  BufferLike : Type;
  Buffer_from_string : jsstring -> Encoding -> Buffer;
  Buffer_from : BufferLike -> Thrown + Buffer;
  encodeURIComponent : jsstring -> Thrown + jsstring
}.

Section Provider.

Context {P : Platform}.

Inductive FileContent : Type :=
| ContentBuffer (b : Buffer)
| ContentString (s : jsstring)
| ContentOther (v : BufferLike).

Record ProviderUploadFileDTO : Type := mkUploadFile {
  filename : option jsstring;
  mimeType : option jsstring;
  content : FileContent
}.

(** The world an operation runs in: the store, the reading of the clock,
    and the tokens [ulid()] hands out, one per call. *)
Record World : Type := mkWorld {
  store : Store;
  clock : Z;
  ulids : nat -> jsstring;
  drawn : nat
}.

Record Run (A : Type) : Type := mkRun {
  outcome : Outcome A;
  world : World;
  events : list Event
}.

Definition M (A : Type) : Type := World -> Run A.

Definition ret {A} (a : A) : M A :=
  fun w => mkRun (Return a) w [].

Definition throw {A} (e : Thrown) : M A :=
  fun w => mkRun (Throw e) w [].

Definition bind {A B} (c : M A) (k : A -> M B) : M B :=
  fun w =>
    let r := c w in
    match outcome r with
    | Return a =>
        let r' := k a (world r) in
        mkRun (outcome r') (world r') (events r ++ events r')
    | Throw e => mkRun (Throw e) (world r) (events r)
    end.

(** [try { body } catch (error) { handler }] *)
Definition tryCatch {A} (body : M A) (handler : Thrown -> M A) : M A :=
  fun w =>
    let r := body w in
    match outcome r with
    | Return a => r
    | Throw e =>
        let r' := handler e (world r) in
        mkRun (outcome r') (world r') (events r ++ events r')
    end.

Notation "x <- c ;; k" := (bind c (fun x => k))
  (at level 61, c at next level, right associativity).
Notation "c ;;; k" := (bind c (fun _ => k))
  (at level 61, right associativity).

Definition liftThrown {A} (r : Thrown + A) : M A :=
  match r with
  | inl e => throw e
  | inr a => ret a
  end.

Definition Date_now : M Z :=
  fun w => mkRun (Return (clock w)) w [].

Definition ulid : M jsstring :=
  fun w =>
    mkRun (Return (ulids w (drawn w)))
          (mkWorld (store w) (clock w) (ulids w) (S (drawn w))) [].

Definition log (l : Level) (msg : jsstring) : M unit :=
  fun w => mkRun (Return tt) w [Logged l msg].

(** [await this.client.send(command)] *)
Definition send (c : Command) : M CommandOutput :=
  fun w =>
    let '(r, s') := s3_send c (store w) in
    let w' := mkWorld s' (clock w) (ulids w) (drawn w) in
    match r with
    | inl e => mkRun (Throw e) w' [Sent c]
    | inr out => mkRun (Return out) w' [Sent c]
    end.

(** [await getSignedUrl(this.client, command, { expiresIn })] *)
Definition presign (c : Command) (expiresIn : Z) : M jsstring :=
  fun w =>
    match getSignedUrl c expiresIn (store w) with
    | inl e => mkRun (Throw e) w [Presigned c expiresIn]
    | inr u => mkRun (Return u) w [Presigned c expiresIn]
    end.

(** [sanitizeFileName] run in the world: it reads the clock, then draws
    a token. *)
Definition sanitize (originalName : option jsstring) : M jsstring :=
  now <- Date_now ;;
  uniqueId <- ulid ;;
  ret (sanitizeFileName now uniqueId originalName).

(** The constructor keeps the options, the bucket and the public base
    URL. *)
Definition instance (options : S3FileProviderOptions) : Service :=
  mkService options (bucket options) (file_url options).

Definition constructor (options : S3FileProviderOptions) : M Service :=
  log info (lit "S3 file service initialized with bucket: "
            ++ bucket options ++ lit ", region: " ++ region options) ;;;
  ret (instance options).

(** *** upload *)

(** Lines 117-130: the content as a byte buffer; [Buffer.from] on a
    value that is neither a buffer nor a string may throw. *)
Definition normalizeContent (c : FileContent) : Thrown + Buffer :=
  match c with
  | ContentBuffer b => inr b
  | ContentString s =>
      if matchesBase64Pattern s
      then inr (Buffer_from_string s base64)
      else inr (Buffer_from_string s binary)
  | ContentOther v => Buffer_from v
  end.

(** Lines 155-183: the URL returned for a stored key. *)
Definition publicUrl (this : Service) (fileKey : jsstring) : jsstring :=
  match fileUrl this with
  | Some (c :: f) =>
      let baseUrl := removeTrailingSlash (c :: f) in
      baseUrl ++ lit "/" ++ fileKey
  | _ =>
      match endpoint (config_ this) with
      | Some (c :: e) =>
          let endpoint := removeTrailingSlash (c :: e) in
          let '(protocol, endpoint) :=
            if startsWith (lit "http://") endpoint
            then (lit "http://", removeFirst (lit "http://") endpoint)
            else if startsWith (lit "https://") endpoint
            then (lit "https://", removeFirst (lit "https://") endpoint)
            else (lit "https://", endpoint) in
          if flagSet (s3ForcePathStyle (config_ this))
          then protocol ++ endpoint ++ lit "/" ++ this_bucket this
               ++ lit "/" ++ fileKey
          else protocol ++ this_bucket this ++ lit "." ++ endpoint
               ++ lit "/" ++ fileKey
      | _ =>
          lit "https://" ++ this_bucket this ++ lit ".s3."
          ++ region (config_ this) ++ lit ".amazonaws.com/" ++ fileKey
      end
  end.

Definition upload (this : Service) (file : option ProviderUploadFileDTO)
  : M ProviderFileResultDTO :=
  match file with
  | None => throw (MedusaError INVALID_DATA (lit "No file provided"))
  | Some file =>
      match filename file with
      | Some (c :: n) =>
          let name := c :: n in
          tryCatch
            (fileKey <- sanitize (Some name) ;;
             content <- liftThrown (normalizeContent (content file)) ;;
             original <- liftThrown (encodeURIComponent name) ;;
             let putCommandParams :=
               mkPut (this_bucket this) fileKey (Some content)
                     (mimeType file)
                     [(lit "original-filename", original)]
                     (if negb (flagSet (s3ForcePathStyle (config_ this)))
                      then Some (lit "public-read") else None) in
             send (PutObjectCommand putCommandParams) ;;;
             let url := publicUrl this fileKey in
             log info (lit "Successfully uploaded file " ++ fileKey
                       ++ lit " to S3 bucket " ++ this_bucket this) ;;;
             ret (mkResult url fileKey))
            (fun error_ =>
               log error (lit "Failed to upload file: " ++ message error_) ;;;
               throw (MedusaError UNEXPECTED_STATE
                        (lit "Failed to upload file: " ++ message error_)))
      | _ => throw (MedusaError INVALID_DATA (lit "No filename provided"))
      end
  end.

(** *** delete *)

Inductive DeleteArgument : Type :=
| OneFile (f : option ProviderGetFileDTO)
| ManyFiles (fs : list (option ProviderGetFileDTO)).

(** The [for (const file of files)] loop. *)
Fixpoint deleteLoop (this : Service) (files : list (option ProviderGetFileDTO))
  : M unit :=
  match files with
  | [] => ret tt
  | file :: rest =>
      match optFileKey file with
      | Some (c :: k) =>
          let fileKey := c :: k in
          tryCatch
            (send (DeleteObjectCommand (this_bucket this) fileKey) ;;;
             log info (lit "Successfully deleted file " ++ fileKey
                       ++ lit " from S3 bucket " ++ this_bucket this))
            (fun error_ =>
               log warn (lit "Failed to delete file " ++ fileKey
                         ++ lit ": " ++ message error_)) ;;;
          deleteLoop this rest
      | _ => throw (MedusaError INVALID_DATA (lit "No file key provided"))
      end
  end.

Definition delete (this : Service) (fileData : DeleteArgument) : M unit :=
  let files := match fileData with
               | OneFile f => [f]
               | ManyFiles fs => fs
               end in
  deleteLoop this files.

(** *** getPresignedUploadUrl *)

Definition getPresignedUploadUrl (this : Service)
    (fileData : option ProviderGetPresignedUploadUrlDTO)
  : M ProviderFileResultDTO :=
  match optFilename fileData with
  | Some (c :: n) =>
      let name := c :: n in
      tryCatch
        (fileKey <- sanitize (Some name) ;;
         let putCommand :=
           PutObjectCommand
             (mkPut (this_bucket this) fileKey None None [] None) in
         url <- presign putCommand (15 * 60) ;;
         ret (mkResult url fileKey))
        (fun error_ =>
           log error (lit "Failed to generate presigned upload URL: "
                      ++ message error_) ;;;
           throw (MedusaError UNEXPECTED_STATE
                    (lit "Failed to generate presigned upload URL: "
                     ++ message error_)))
  | _ => throw (MedusaError INVALID_DATA (lit "No filename provided"))
  end.

(** *** getAsBuffer *)

(** The promise around the stream: resolved with the concatenated chunks
    on ['end'], rejected on ['error']. *)
Definition collect (stream : Readable) : M Buffer :=
  match failure stream with
  | Some e => throw e
  | None => ret (List.concat (chunks stream))
  end.

Definition getAsBuffer (this : Service) (fileData : option ProviderGetFileDTO)
  : M Buffer :=
  match optFileKey fileData with
  | Some (c :: k) =>
      let fileKey := c :: k in
      tryCatch
        (response <- send (GetObjectCommand (this_bucket this) fileKey) ;;
         match Body response with
         | None =>
             throw (MedusaError NOT_FOUND
                      (lit "File " ++ fileKey ++ lit " not found or empty"))
         | Some stream =>
             buffer <- collect stream ;;
             log info (lit "Retrieved buffer for file " ++ fileKey) ;;;
             ret buffer
         end)
        (fun error_ =>
           log error (lit "Failed to get buffer: " ++ message error_) ;;;
           throw (MedusaError UNEXPECTED_STATE
                    (lit "Failed to get buffer: " ++ message error_)))
  | _ => throw (MedusaError INVALID_DATA (lit "No file key provided"))
  end.

End Provider.

(** ** Vocabulary of the specification *)

Module Spec.

(** The safe character set [[A-Za-z0-9_.]]. *)
Definition safeChar (c : N) : bool :=
  ((65 <=? c) && (c <=? 90))%N || ((97 <=? c) && (c <=? 122))%N
  || ((48 <=? c) && (c <=? 57))%N || N.eqb c 95 || N.eqb c 46.

Definition isDigit (c : N) : bool := ((48 <=? c) && (c <=? 57))%N.

(** Crockford's base-32 alphabet, the alphabet of a ULID: digits and
    upper-case letters without I, L, O and U. *)
Definition isCrockford (c : N) : bool :=
  isDigit c
  || (((65 <=? c) && (c <=? 90))%N
      && negb (N.eqb c 73 || N.eqb c 76 || N.eqb c 79 || N.eqb c 85)).

(** A 26-character token. *)
Definition isToken (u : jsstring) : bool :=
  Nat.eqb (List.length u) 26 && forallb isCrockford u.

(** The substring from the last dot onward, empty when there is no dot. *)
Fixpoint lastDotOnward (s : jsstring) : jsstring :=
  match s with
  | [] => []
  | c :: s' =>
      match lastDotOnward s' with
      | [] => if N.eqb c CHAR_DOT then s else []
      | later => later
      end
  end.

(** The key pattern [prod_<13digits>_<26charToken><ext>]. *)
Definition keyPattern (ext key : jsstring) : Prop :=
  exists digits token,
    key = lit "prod_" ++ digits ++ lit "_" ++ token ++ ext
    /\ List.length digits = 13%nat
    /\ forallb isDigit digits = true
    /\ isToken token = true.





(** The number a least-significant-first digit string denotes. *)
Fixpoint valueRev (ds : list N) : Z :=
  match ds with
  | [] => 0
  | d :: ds' => (Z.of_N d - 48) + 10 * valueRev ds'
  end.

(** A clock reading of thirteen digits: September 2001 to November 2286. *)
Definition thirteenDigits (now : Z) : Prop :=
  (10 ^ 12 <= now < 10 ^ 13)%Z.

(** [t] is [s] without its trailing slash, if it has one. *)
Definition withoutTrailingSlash (s t : jsstring) : Prop :=
  s = t ++ [CHAR_FORWARD_SLASH]
  \/ (s = t /\ forall t', s <> t' ++ [CHAR_FORWARD_SLASH]).

(** The longest prefix of [s] whose characters satisfy [f]. *)
Fixpoint takeWhile (f : N -> bool) (s : jsstring) : jsstring :=
  match s with
  | [] => []
  | c :: s' => if f c then c :: takeWhile f s' else []
  end.

End Spec.

(** ** Vocabulary for the runs of the provider *)

Section ProviderVocabulary.

Context {P : Platform}.

(** The key an operation started in [w] generates for [name]. *)
Definition keyIn (w : World) (name : jsstring) : jsstring :=
  sanitizeFileName (clock w) (ulids w (drawn w)) (Some name).

(** [w] after one token was drawn and the store moved to [s]. *)
Definition after (w : World) (s : Store) : World :=
  mkWorld s (clock w) (ulids w) (S (drawn w)).

(** The run of a [catch] block that logs and rethrows. *)
Definition rethrown {A} (prefix : jsstring) (e : Thrown) (w : World)
    (before : list Event) : Run A :=
  mkRun (Throw (MedusaError UNEXPECTED_STATE (prefix ++ message e))) w
        (before ++ [Logged error (prefix ++ message e)]).

(** The PUT request of an upload. *)
Definition putRequest (this : Service) (f : ProviderUploadFileDTO)
    (fileKey : jsstring) (body : Buffer) (original : jsstring)
  : PutObjectInput :=
  mkPut (this_bucket this) fileKey (Some body) (mimeType f)
        [(lit "original-filename", original)]
        (if negb (flagSet (s3ForcePathStyle (config_ this)))
         then Some (lit "public-read") else None).

(** How the protocol and the host are read off an endpoint. *)
Definition endpointParts (e protocol host : jsstring) : Prop :=
  (e = lit "http://" ++ host /\ protocol = lit "http://")
  \/ (e = lit "https://" ++ host /\ protocol = lit "https://")
  \/ (startsWith (lit "http://") e = false
      /\ startsWith (lit "https://") e = false
      /\ e = host /\ protocol = lit "https://").

Definition hasKey (f : option ProviderGetFileDTO) : bool :=
  truthy (optFileKey f).

(** The keys of the items up to the first one without a key. *)
Fixpoint keyedPrefix (files : list (option ProviderGetFileDTO))
  : list jsstring :=
  match files with
  | [] => []
  | f :: rest =>
      match optFileKey f with
      | Some (c :: k) => (c :: k) :: keyedPrefix rest
      | _ => []
      end
  end.

(** The requests among the events of a run, in order. *)
Fixpoint sentCommands (evs : list Event) : list Command :=
  match evs with
  | [] => []
  | Sent c :: evs' => c :: sentCommands evs'
  | _ :: evs' => sentCommands evs'
  end.

Definition filesOf (fileData : DeleteArgument)
  : list (option ProviderGetFileDTO) :=
  match fileData with
  | OneFile f => [f]
  | ManyFiles fs => fs
  end.

(** [w] with the store moved to [s], no token drawn. *)
Definition moved (w : World) (s : Store) : World :=
  mkWorld s (clock w) (ulids w) (drawn w).

End ProviderVocabulary.

(** ** A small in-memory platform

    A bucket as a list of keys with their bytes ([None]: the store
    answers a GET for the key without a body) and a list of keys whose
    deletion the store refuses.  It serves to run the operations on
    concrete inputs. *)

Module Demo.

Record Bucket : Type := mkBucket {
  objects : list (jsstring * option Buffer);
  refused : list jsstring
}.

Fixpoint lookup (k : jsstring) (l : list (jsstring * option Buffer))
  : option (option Buffer) :=
  match l with
  | [] => None
  | (k', v) :: l' => if JS.eqb k k' then Some v else lookup k l'
  end.

Fixpoint remove (k : jsstring) (l : list (jsstring * option Buffer))
  : list (jsstring * option Buffer) :=
  match l with
  | [] => []
  | (k', v) :: l' =>
      if JS.eqb k k' then remove k l' else (k', v) :: remove k l'
  end.

Definition send (c : Command) (s : Bucket)
  : (Thrown + CommandOutput) * Bucket :=
  match c with
  | PutObjectCommand p =>
      (inr (mkOutput None),
       mkBucket ((put_Key p, put_Body p) :: remove (put_Key p) (objects s))
                (refused s))
  | DeleteObjectCommand _ k =>
      if existsb (JS.eqb k) (refused s)
      then (inl (PlatformError (lit "AccessDenied")), s)
      else (inr (mkOutput None), mkBucket (remove k (objects s)) (refused s))
  | GetObjectCommand _ k =>
      match lookup k (objects s) with
      | Some (Some bytes) =>
          (inr (mkOutput (Some (mkReadable [bytes] None))), s)
      | Some None => (inr (mkOutput None), s)
      | None => (inl (PlatformError (lit "NoSuchKey")), s)
      end
  end.

Definition sign (c : Command) (expiresIn : Z) (s : Bucket)
  : Thrown + jsstring :=
  match c with
  | PutObjectCommand p =>
      inr (lit "https://signed.example/" ++ put_Key p
           ++ lit "?X-Amz-Expires=" ++ numberToString expiresIn)
  | DeleteObjectCommand _ k | GetObjectCommand _ k =>
      inr (lit "https://signed.example/" ++ k
           ++ lit "?X-Amz-Expires=" ++ numberToString expiresIn)
  end.

Definition byteOf (n : N) : Byte.byte :=
  match Byte.of_N (n mod 256) with
  | Some b => b
  | None => Byte.x00
  end.

(** A plain base64 decoder: characters outside the alphabet are skipped,
    the sextets of the others are packed into bytes. *)
Definition sextet (c : N) : option N :=
  if ((65 <=? c) && (c <=? 90))%N then Some (c - 65)%N
  else if ((97 <=? c) && (c <=? 122))%N then Some (c - 71)%N
  else if ((48 <=? c) && (c <=? 57))%N then Some (c + 4)%N
  else if N.eqb c 43 then Some 62%N
  else if N.eqb c 47 then Some 63%N
  else None.

Fixpoint sextets (s : jsstring) : list N :=
  match s with
  | [] => []
  | c :: s' =>
      match sextet c with
      | Some v => v :: sextets s'
      | None => sextets s'
      end
  end.

Fixpoint pack (l : list N) : Buffer :=
  match l with
  | a :: b :: c :: d :: rest =>
      byteOf (a * 4 + b / 16) :: byteOf ((b mod 16) * 16 + c / 4)
      :: byteOf ((c mod 4) * 64 + d) :: pack rest
  | [a; b; c] =>
      [byteOf (a * 4 + b / 16); byteOf ((b mod 16) * 16 + c / 4)]
  | [a; b] => [byteOf (a * 4 + b / 16)]
  | _ => []
  end%N.

Definition fromString (s : jsstring) (e : Encoding) : Buffer :=
  match e with
  | base64 => pack (sextets s)
  | binary => map byteOf s
  end.

(** The characters [encodeURIComponent] leaves as they are. *)
Definition unreserved (c : N) : bool :=
  Spec.safeChar c || N.eqb c 45 || N.eqb c 33 || N.eqb c 126
  || N.eqb c 42 || N.eqb c 39 || N.eqb c 40 || N.eqb c 41.

Definition hexDigit (n : N) : N :=
  if (n <? 10)%N then (48 + n)%N else (55 + n)%N.

Definition percent (b : N) : jsstring :=
  [37%N; hexDigit (b / 16); hexDigit (b mod 16)].

(** The UTF-8 bytes of a code point, percent-encoded. *)
Definition utf8 (cp : N) : jsstring :=
  (if cp <? 128 then percent cp
   else if cp <? 2048
   then percent (192 + cp / 64) ++ percent (128 + cp mod 64)
   else if cp <? 65536
   then percent (224 + cp / 4096) ++ percent (128 + (cp / 64) mod 64)
        ++ percent (128 + cp mod 64)
   else percent (240 + cp / 262144) ++ percent (128 + (cp / 4096) mod 64)
        ++ percent (128 + (cp / 64) mod 64)
        ++ percent (128 + cp mod 64))%N.

Definition highSurrogate (c : N) : bool := ((55296 <=? c) && (c <=? 56319))%N.
Definition lowSurrogate (c : N) : bool := ((56320 <=? c) && (c <=? 57343))%N.

Definition andThen (pre : jsstring) (r : Thrown + jsstring)
  : Thrown + jsstring :=
  match r with
  | inl e => inl e
  | inr t => inr (pre ++ t)
  end.

Definition URIError : Thrown := PlatformError (lit "URI malformed").

(** [encodeURIComponent]: unreserved characters are kept, every other
    code point becomes its percent-encoded UTF-8 bytes, a surrogate
    without its partner is a [URIError]. *)
Fixpoint encodeUnits (s : jsstring) : Thrown + jsstring :=
  match s with
  | [] => inr []
  | c :: s' =>
      if unreserved c then andThen [c] (encodeUnits s')
      else if highSurrogate c then
        match s' with
        | d :: s'' =>
            if lowSurrogate d
            then andThen
                   (utf8 (65536 + (c - 55296) * 1024 + (d - 56320))%N)
                   (encodeUnits s'')
            else inl URIError
        | [] => inl URIError
        end
      else if lowSurrogate c then inl URIError
      else andThen (utf8 c) (encodeUnits s')
  end.

#[export] Instance platform : Platform := {
  Store := Bucket;
  s3_send := send;
  getSignedUrl := sign;
  BufferLike := list Byte.byte;
  Buffer_from_string := fromString;
  Buffer_from := fun v => inr v;
  encodeURIComponent := encodeUnits
}.

Definition options : S3FileProviderOptions :=
  mkOptions None (lit "AKIA") (lit "secret") (lit "us-east-1") (lit "media")
            (Some (lit "http://minio.local:9000")) (Some true) None.

Definition cdnOptions : S3FileProviderOptions :=
  mkOptions (Some (lit "https://cdn.example.com/")) (lit "AKIA")
            (lit "secret") (lit "us-east-1") (lit "media") None None None.

Definition now : Z := 1700000000000.

Definition tokens (n : nat) : jsstring :=
  match n with
  | O => lit "01ARZ3NDEKTSV4RRFFQ69G5FAV"
  | _ => lit "01BX5ZZKBKACTAV9WEVGEMMVRZ"
  end.

Definition token : jsstring := tokens 0.

Definition emptyWorld : World :=
  mkWorld (mkBucket [] []) now tokens 0.

(** A world whose store answers a GET for [ghost.png] without a body. *)
Definition bodilessWorld : World :=
  mkWorld (mkBucket [(lit "ghost.png", None)] []) now tokens 0.

(** A world whose store refuses to delete [b.png]. *)
Definition guardedWorld : World :=
  mkWorld (mkBucket [] [lit "b.png"]) now tokens 0.

Definition photo : ProviderUploadFileDTO :=
  mkUploadFile (Some (lit "my photo.png")) (Some (lit "image/png"))
               (ContentString (lit "aGVsbG8=")).

Definition nameless : ProviderUploadFileDTO :=
  mkUploadFile (Some []) (Some (lit "image/png"))
               (ContentString (lit "aGVsbG8=")).

Definition photoKey : jsstring :=
  lit "prod_1700000000000_01ARZ3NDEKTSV4RRFFQ69G5FAV.png".

Definition photoResult : ProviderFileResultDTO :=
  mkResult (lit "http://minio.local:9000/media/" ++ photoKey) photoKey.

Definition hello : Buffer :=
  [Byte.x68; Byte.x65; Byte.x6c; Byte.x6c; Byte.x6f].

Definition photoPut (o : S3FileProviderOptions) : PutObjectInput :=
  putRequest (instance o) photo photoKey hello (lit "my%20photo.png").

Definition item (k : jsstring) : option ProviderGetFileDTO :=
  Some (mkGetFile (Some k)).

Definition presignRequest : option ProviderGetPresignedUploadUrlDTO :=
  Some (mkPresignedUpload (Some (lit "my photo.png"))).

End Demo.

(** ** The rest of the provider (service.ts) *)

(** A JavaScript value as far as its truthiness goes; [VOther] stands
    for every value that is always truthy (objects, arrays, functions,
    non-zero numbers that are not integers). *)
Inductive JSValue : Type :=
| VUndefined
| VNull
| VBoolean (b : bool)
| VNumber (n : Z)
| VNaN
| VString (s : jsstring)
| VOther.

Definition toBoolean (v : JSValue) : bool :=
  match v with
  | VBoolean b => b
  | VNumber n => negb (n =? 0)%Z
  | VString (_ :: _) => true
  | VOther => true
  | _ => false
  end.

(** Lines 75-91.  [options] is any record; [options field] is the value
    of [options[field]], [VUndefined] when the field is absent. *)
Definition requiredFields : list jsstring :=
  [lit "access_key_id"; lit "secret_access_key"; lit "region"; lit "bucket"].

(** [requiredFields.forEach(...)]: the first throw ends the iteration. *)
Fixpoint forEachField (options : jsstring -> JSValue)
    (fields : list jsstring) : Outcome unit :=
  match fields with
  | [] => Return tt
  | field :: rest =>
      if negb (toBoolean (options field))
      then Throw (MedusaError INVALID_DATA
                    (field ++ lit " is required in the provider's options"))
      else forEachField options rest
  end.

Definition validateOptions (options : jsstring -> JSValue) : Outcome unit :=
  forEachField options requiredFields.



Section ProviderRest.

Context {P : Platform}.

Notation "x <- c ;; k" := (bind c (fun x => k))
  (at level 61, c at next level, right associativity).
Notation "c ;;; k" := (bind c (fun _ => k))
  (at level 61, right associativity).

(** *** getPresignedDownloadUrl *)

Definition getPresignedDownloadUrl (this : Service)
    (fileData : option ProviderGetFileDTO) : M jsstring :=
  match optFileKey fileData with
  | Some (c :: k) =>
      let fileKey := c :: k in
      tryCatch
        (let getCommand := GetObjectCommand (this_bucket this) fileKey in
         url <- presign getCommand (24 * 60 * 60) ;;
         log info (lit "Generated presigned URL for file " ++ fileKey) ;;;
         ret url)
        (fun error_ =>
           log error (lit "Failed to generate presigned URL: "
                      ++ message error_) ;;;
           throw (MedusaError UNEXPECTED_STATE
                    (lit "Failed to generate presigned URL: "
                     ++ message error_)))
  | _ => throw (MedusaError INVALID_DATA (lit "No file key provided"))
  end.

(** *** getDownloadStream *)

Definition getDownloadStream (this : Service)
    (fileData : option ProviderGetFileDTO) : M Readable :=
  match optFileKey fileData with
  | Some (c :: k) =>
      let fileKey := c :: k in
      tryCatch
        (response <- send (GetObjectCommand (this_bucket this) fileKey) ;;
         match Body response with
         | None =>
             throw (MedusaError NOT_FOUND
                      (lit "File " ++ fileKey ++ lit " not found or empty"))
         | Some stream =>
             log info (lit "Retrieved download stream for file "
                       ++ fileKey) ;;;
             ret stream
         end)
        (fun error_ =>
           log error (lit "Failed to get download stream: "
                      ++ message error_) ;;;
           throw (MedusaError UNEXPECTED_STATE
                    (lit "Failed to get download stream: "
                     ++ message error_)))
  | _ => throw (MedusaError INVALID_DATA (lit "No file key provided"))
  end.

(** A store that gives back what was put: after an accepted PUT, a GET
    for the same bucket and key answers a stream that ends well and
    whose chunks make up the body. *)
Definition readsBack : Prop :=
  forall p s out s' b,
    s3_send (PutObjectCommand p) s = (inr out, s') ->
    put_Body p = Some b ->
    exists stream s'',
      s3_send (GetObjectCommand (put_Bucket p) (put_Key p)) s'
      = (inr (mkOutput (Some stream)), s'')
      /\ failure stream = None
      /\ List.concat (chunks stream) = b.

(** The signing steps among the events of a run, in order. *)
Fixpoint signedCommands (evs : list Event) : list (Command * Z) :=
  match evs with
  | [] => []
  | Presigned c t :: evs' => (c, t) :: signedCommands evs'
  | _ :: evs' => signedCommands evs'
  end.

End ProviderRest.

(** ** The last segment of a path *)

Module Segment.

Import Path.

Definition isSlash (c : N) : bool := N.eqb c CHAR_FORWARD_SLASH.

(** The last path segment: trailing slashes are dropped, then what
    follows the last slash left is kept. *)
Definition lastSegment (path : jsstring) : jsstring :=
  rev (Spec.takeWhile notSlash (dropWhile isSlash (rev path))).

(** The extension of a segment, in closed form. *)
Definition segmentExtension (seg : jsstring) : jsstring :=
  if Nat.eqb (List.length (Spec.lastDotOnward seg)) (List.length seg)
     || JS.eqb seg (lit "..")
  then []
  else Spec.lastDotOnward seg.

(** The extension [sanitizeFileName] gives a key. *)
Definition keyExtension (originalName : option jsstring) : jsstring :=
  match originalName with
  | Some (c :: n) => segmentExtension (lastSegment (c :: n))
  | _ => lit ".bin"
  end.

(** The loop over a run of characters without a slash, [o] characters
    from the start of the path. *)
Fixpoint visitAll (o : Z) (l : list N) (st : ExtState) : ExtState :=
  match l with
  | [] => st
  | c :: l' => visitAll o l' (visit (o + Z.of_nat (List.length l')) c st)
  end.

(** A state with its positions moved [o] characters to the right. *)
Definition shift (o : Z) (st : ExtState) : ExtState :=
  mkExtState
    (if (startDot st =? -1)%Z then -1 else startDot st + o)%Z
    (startPart st)
    (if (end_ st =? -1)%Z then -1 else end_ st + o)%Z
    (matchedSlash st)
    (preDotState st).

(** What the loop knows when the characters right of position [i] of a
    segment of [n] characters have been visited. *)
Definition tracked (i n : Z) (st : ExtState) : Prop :=
  ((end_ st = -1 /\ startDot st = -1)
   \/ (i < end_ st <= n /\ matchedSlash st = false
       /\ (startDot st = -1 \/ i < startDot st < end_ st)))%Z
  /\ startPart st = 0%Z.

End Segment.

(** ** More concrete inputs *)

Module Sample.

(** A platform whose store refuses every PUT, answers every GET with a
    stream that breaks after one chunk, and cannot sign. *)
Definition brokenSend (c : Command) (s : unit)
  : (Thrown + CommandOutput) * unit :=
  match c with
  | PutObjectCommand _ => (inl (PlatformError (lit "AccessDenied")), s)
  | DeleteObjectCommand _ _ => (inr (mkOutput None), s)
  | GetObjectCommand _ _ =>
      (inr (mkOutput (Some (mkReadable [Demo.hello]
                              (Some (PlatformError (lit "aborted")))))), s)
  end.

Definition broken : Platform := {|
  Store := unit;
  s3_send := brokenSend;
  getSignedUrl := fun _ _ _ => inl (PlatformError (lit "no credentials"));
  BufferLike := unit;
  Buffer_from_string := Demo.fromString;
  Buffer_from := fun _ => inl (PlatformError (lit "not a buffer"));
  encodeURIComponent := Demo.encodeUnits
|}.

Definition brokenWorld : World (P := broken) :=
  mkWorld (P := broken) tt Demo.now Demo.tokens 0.

Definition brokenPhoto : ProviderUploadFileDTO (P := broken) :=
  mkUploadFile (P := broken) (Some (lit "my photo.png"))
    (Some (lit "image/png")) (ContentString (P := broken) (lit "aGVsbG8=")).

Definition brokenBlob : ProviderUploadFileDTO (P := broken) :=
  mkUploadFile (P := broken) (Some (lit "blob.bin")) None
    (ContentOther (P := broken) tt).

Definition brokenStream : Readable :=
  mkReadable [Demo.hello] (Some (PlatformError (lit "aborted"))).

(** Options with every required field. *)
Definition fullOptions (field : jsstring) : JSValue :=
  if JS.eqb field (lit "access_key_id") then VString (lit "AKIA")
  else if JS.eqb field (lit "secret_access_key") then VString (lit "secret")
  else if JS.eqb field (lit "region") then VString (lit "us-east-1")
  else if JS.eqb field (lit "bucket") then VString (lit "media")
  else VUndefined.

(** Options with an empty region and no bucket. *)
Definition partialOptions (field : jsstring) : JSValue :=
  if JS.eqb field (lit "access_key_id") then VString (lit "AKIA")
  else if JS.eqb field (lit "secret_access_key") then VString (lit "secret")
  else if JS.eqb field (lit "region") then VString []
  else VUndefined.


End Sample.

(** * Properties *)

(** ** Number to string *)

Module NumberFacts.

Lemma forallb_rev' (f : N -> bool) (l : list N) :
  forallb f (rev l) = forallb f l.
Proof.
  induction l as [|x l IH]; [reflexivity|].
  simpl. rewrite forallb_app, IH. simpl.
  rewrite andb_true_r. apply andb_comm.
Qed.

Lemma digitChar_isDigit (d : Z) :
  (0 <= d < 10)%Z -> Spec.isDigit (digitChar d) = true.
Proof.
  intros Hd. unfold Spec.isDigit, digitChar.
  apply andb_true_iff. split; apply N.leb_le; lia.
Qed.

Lemma decimalRev_digits (fuel : nat) :
  forall n, (0 <= n)%Z -> forallb Spec.isDigit (decimalRev fuel n) = true.
Proof.
  induction fuel as [|fuel IH]; intros n Hn; simpl; [reflexivity|].
  rewrite digitChar_isDigit by (apply Z.mod_pos_bound; lia). simpl.
  destruct (n / 10 =? 0)%Z; [reflexivity|].
  apply IH. apply Z.div_pos; lia.
Qed.

Lemma decimalRev_length (k : nat) :
  forall fuel n,
    (k < fuel)%nat ->
    (10 ^ Z.of_nat k <= n < 10 ^ Z.of_nat (S k))%Z ->
    List.length (decimalRev fuel n) = S k.
Proof.
  induction k as [|k IH]; intros fuel n Hf Hn.
  - destruct fuel as [|fuel]; [lia|]. simpl.
    change (10 ^ Z.of_nat 0)%Z with 1%Z in Hn.
    change (10 ^ Z.of_nat 1)%Z with 10%Z in Hn.
    rewrite Z.div_small by lia. reflexivity.
  - destruct fuel as [|fuel]; [lia|]. simpl decimalRev.
    rewrite !Nat2Z.inj_succ, !Z.pow_succ_r in Hn by lia.
    assert (Hq : (10 ^ Z.of_nat k <= n / 10 < 10 ^ Z.of_nat (S k))%Z).
    { rewrite Nat2Z.inj_succ, Z.pow_succ_r by lia. split.
      - apply Z.div_le_lower_bound; lia.
      - apply Z.div_lt_upper_bound; lia. }
    assert (Hpos : (0 < 10 ^ Z.of_nat k)%Z) by (apply Z.pow_pos_nonneg; lia).
    destruct (Z.eqb_spec (n / 10) 0) as [E|_]; [lia|].
    simpl. f_equal. apply IH; [lia|exact Hq].
Qed.

(** With fuel above the binary logarithm the conversion reads back as
    the number itself: the fuel never runs out. *)
Lemma decimalRev_value (fuel : nat) :
  forall n, (0 <= n < 2 ^ Z.of_nat fuel)%Z ->
            Spec.valueRev (decimalRev fuel n) = n.
Proof.
  induction fuel as [|fuel IH]; intros n Hn.
  - change (2 ^ Z.of_nat 0)%Z with 1%Z in Hn. simpl. lia.
  - simpl decimalRev. cbn [Spec.valueRev].
    assert (Hm : (0 <= n mod 10 < 10)%Z) by (apply Z.mod_pos_bound; lia).
    assert (Hd : Z.of_N (digitChar (n mod 10)) = (48 + n mod 10)%Z).
    { unfold digitChar. rewrite N2Z.inj_add, Z2N.id by lia. reflexivity. }
    rewrite Hd.
    pose proof (Z.div_mod n 10 ltac:(lia)) as Hdm.
    destruct (Z.eqb_spec (n / 10) 0) as [E|NE].
    + cbn [Spec.valueRev]. lia.
    + rewrite IH; [lia|].
      rewrite Nat2Z.inj_succ, Z.pow_succ_r in Hn by lia.
      split; [apply Z.div_pos; lia|].
      apply Z.div_lt_upper_bound; lia.
Qed.

Lemma numberToString_value (n : Z) :
  (0 <= n)%Z -> Spec.valueRev (rev (numberToString n)) = n.
Proof.
  intros Hn. unfold numberToString.
  destruct (Z.ltb_spec n 0) as [H|_]; [lia|].
  rewrite rev_involutive. apply decimalRev_value.
  split; [exact Hn|]. unfold decimalFuel.
  destruct (Z.eq_dec n 0) as [->|NZ]; [reflexivity|].
  rewrite Nat2Z.inj_succ, Z2Nat.id by apply Z.log2_nonneg.
  apply Z.log2_spec. lia.
Qed.

Lemma numberToString_13 (now : Z) :
  Spec.thirteenDigits now ->
  List.length (numberToString now) = 13%nat
  /\ forallb Spec.isDigit (numberToString now) = true.
Proof.
  unfold Spec.thirteenDigits. intros Hn. unfold numberToString.
  destruct (Z.ltb_spec now 0) as [H|_]; [lia|]. split.
  - rewrite length_rev. apply (decimalRev_length (k := 12)); [|exact Hn].
    unfold decimalFuel.
    assert (Z.log2 (10 ^ 12) <= Z.log2 now)%Z by (apply Z.log2_le_mono; lia).
    change (Z.log2 (10 ^ 12)) with 39%Z in H. lia.
  - rewrite forallb_rev'. apply decimalRev_digits. lia.
Qed.

End NumberFacts.

(** ** [path.extname] on names without a slash *)

Module PathFacts.

Import Path.

Lemma plain_inv (c : N) :
  plain c = true ->
  N.eqb c CHAR_FORWARD_SLASH = false /\ N.eqb c CHAR_DOT = false.
Proof.
  unfold plain, notSlash, notDot. intros H.
  apply andb_true_iff in H. destruct H as [H1 H2].
  apply negb_true_iff in H1. apply negb_true_iff in H2. auto.
Qed.

Lemma loop_step (code : N) (rest : list N) (st : ExtState) :
  N.eqb code CHAR_FORWARD_SLASH = false ->
  extnameLoop (code :: rest) st
  = extnameLoop rest (visit (Z.of_nat (List.length rest)) code st).
Proof.
  intros Hs. cbn [extnameLoop]. rewrite Hs. f_equal.
  unfold visit. destruct st as [sd sp e m p]. cbn.
  destruct (Z.eqb_spec e (-1)); cbn;
    destruct (N.eqb code CHAR_DOT); cbn;
    destruct (Z.eqb_spec sd (-1)); cbn;
    try destruct (Z.eqb_spec p 1); cbn; subst; reflexivity.
Qed.

(** A run of characters that are neither dots nor slashes, met before
    any dot: only [end] (and [matchedSlash]) can change, at the first of
    them. *)
Lemma loop_plain_run (a : list N) :
  forall rest st,
    a <> [] -> forallb plain a = true -> startDot st = (-1)%Z ->
    extnameLoop (a ++ rest) st =
    extnameLoop rest
      (mkExtState (-1) (startPart st)
         (if (end_ st =? -1)%Z then Z.of_nat (List.length (a ++ rest))
          else end_ st)
         (if (end_ st =? -1)%Z then false else matchedSlash st)
         (preDotState st)).
Proof.
  induction a as [|c a IH]; intros rest st Hne Hall Hsd; [congruence|].
  simpl in Hall. apply andb_true_iff in Hall. destruct Hall as [Hc Ha].
  destruct (plain_inv _ Hc) as [Hs Hd].
  cbn [app]. rewrite loop_step by exact Hs.
  assert (Hv : visit (Z.of_nat (List.length (a ++ rest))) c st =
               mkExtState (-1) (startPart st)
                 (if (end_ st =? -1)%Z
                  then Z.of_nat (List.length (c :: a ++ rest)) else end_ st)
                 (if (end_ st =? -1)%Z then false else matchedSlash st)
                 (preDotState st)).
  { unfold visit. rewrite Hd, Hsd, Z.eqb_refl.
    destruct (end_ st =? -1)%Z; [|reflexivity].
    f_equal. cbn [List.length]. lia. }
  rewrite Hv. destruct a as [|c' a']; [reflexivity|].
  rewrite IH by (assumption || reflexivity || congruence).
  cbn [startPart end_ matchedSlash preDotState].
  destruct (Z.eqb_spec (end_ st) (-1)) as [E|NE].
  - assert (Hi : (Z.of_nat (List.length (c :: (c' :: a') ++ rest)) =? -1)%Z
                 = false) by (apply Z.eqb_neq; lia).
    rewrite Hi. reflexivity.
  - destruct (Z.eqb_spec (end_ st) (-1)); [contradiction|reflexivity].
Qed.

(** Once the dot and the end are known, what is left of the segment
    only decides [preDotState], through the last character visited. *)
Lemma loop_known_dot (b : list N) :
  forall st,
    forallb notSlash b = true ->
    startDot st <> (-1)%Z -> end_ st <> (-1)%Z ->
    extnameLoop b st =
    mkExtState (startDot st) (startPart st) (end_ st) (matchedSlash st)
      (match rev b with
       | [] => preDotState st
       | c :: _ => if N.eqb c CHAR_DOT then 1 else -1
       end)%Z.
Proof.
  induction b as [|c b IH]; intros st Hall Hsd He.
  - destruct st; reflexivity.
  - simpl in Hall. apply andb_true_iff in Hall. destruct Hall as [Hc Hb].
    unfold notSlash in Hc. apply negb_true_iff in Hc.
    rewrite loop_step by exact Hc.
    assert (Hv : visit (Z.of_nat (List.length b)) c st =
                 mkExtState (startDot st) (startPart st) (end_ st)
                   (matchedSlash st)
                   (if N.eqb c CHAR_DOT then 1 else -1)%Z).
    { unfold visit.
      destruct (Z.eqb_spec (startDot st) (-1)); [contradiction|].
      destruct (Z.eqb_spec (end_ st) (-1)); [contradiction|].
      destruct (N.eqb c CHAR_DOT); reflexivity. }
    rewrite Hv, IH by (assumption || (cbn; assumption)).
    cbn [startDot startPart end_ matchedSlash preDotState rev].
    destruct (rev b); reflexivity.
Qed.

(** The extension of a name [before ++ "." ++ after] without slashes,
    whose part after the dot has no further dot. *)
Lemma extname_last_dot (before after : list N) :
  forallb notSlash before = true ->
  forallb plain after = true ->
  extname (before ++ CHAR_DOT :: after) =
  match before with
  | [] => []
  | c :: b =>
      match b, after with
      | [], [] => if N.eqb c CHAR_DOT then [] else [CHAR_DOT]
      | _, _ => CHAR_DOT :: after
      end
  end.
Proof.
  intros Hb Ha. unfold extname.
  set (s := before ++ CHAR_DOT :: after).
  assert (Hrev : rev s = rev after ++ CHAR_DOT :: rev before).
  { unfold s. rewrite rev_app_distr. cbn [rev]. rewrite <- app_assoc.
    reflexivity. }
  assert (Hlen : List.length s
                 = (List.length before + S (List.length after))%nat).
  { unfold s. rewrite length_app. reflexivity. }
  assert (Hloop : extnameLoop (rev s) initial =
    mkExtState (Z.of_nat (List.length before)) 0 (Z.of_nat (List.length s))
      false
      (match before with
       | [] => 0
       | c :: _ => if N.eqb c CHAR_DOT then 1 else -1
       end)%Z).
  { rewrite Hrev.
    assert (Hdot : N.eqb CHAR_DOT CHAR_FORWARD_SLASH = false) by reflexivity.
    assert (Hrb : forallb notSlash (rev before) = true)
      by (rewrite NumberFacts.forallb_rev'; exact Hb).
    assert (Hhd : forall d : Z,
      match rev (rev before) with
      | [] => d
      | c :: _ => if N.eqb c CHAR_DOT then 1%Z else (-1)%Z
      end = match before with
            | [] => d
            | c :: _ => if N.eqb c CHAR_DOT then 1%Z else (-1)%Z
            end) by (intros d; rewrite rev_involutive; reflexivity).
    assert (Hvisit : forall st,
      startDot st = (-1)%Z -> preDotState st = 0%Z ->
      extnameLoop (CHAR_DOT :: rev before) st =
      mkExtState (Z.of_nat (List.length before)) (startPart st)
        (if (end_ st =? -1)%Z then Z.of_nat (S (List.length before))
         else end_ st)
        (if (end_ st =? -1)%Z then false else matchedSlash st)
        (match before with
         | [] => 0
         | c :: _ => if N.eqb c CHAR_DOT then 1 else -1
         end)%Z).
    { intros st Hsd Hp. rewrite loop_step by exact Hdot.
      unfold visit. change (N.eqb CHAR_DOT CHAR_DOT) with true. cbv iota.
      rewrite Hsd, Z.eqb_refl, Hp, length_rev.
      rewrite loop_known_dot;
        cbn [startDot startPart end_ matchedSlash preDotState];
        [ rewrite Hhd; f_equal;
          destruct (end_ st =? -1)%Z; [lia|reflexivity]
        | exact Hrb
        | lia
        | destruct (Z.eqb_spec (end_ st) (-1)); [lia|assumption] ]. }
    destruct after as [|a0 after'].
    - cbn [rev app]. rewrite Hvisit by reflexivity.
      cbn [initial startPart end_ matchedSlash]. rewrite Z.eqb_refl.
      rewrite Hlen. f_equal. cbn [List.length]. lia.
    - rewrite loop_plain_run;
        [| intros E; apply (f_equal (@List.length N)) in E;
           rewrite length_rev in E; discriminate E
         | rewrite NumberFacts.forallb_rev'; exact Ha
         | reflexivity ].
      rewrite Hvisit by reflexivity.
      cbn [initial startPart end_ matchedSlash]. rewrite Z.eqb_refl.
      rewrite <- Hrev, length_rev.
      assert (Hi : (Z.of_nat (List.length s) =? -1)%Z = false)
        by (apply Z.eqb_neq; lia).
      rewrite Hi. reflexivity. }
  rewrite Hloop. cbn [startDot startPart end_ matchedSlash preDotState].
  assert (Hslice : slice s (Z.of_nat (List.length before))
                     (Z.of_nat (List.length s)) = CHAR_DOT :: after).
  { unfold slice. rewrite Nat2Z.id.
    replace (Z.to_nat (Z.of_nat (List.length s)
                       - Z.of_nat (List.length before)))
      with (S (List.length after)) by lia.
    unfold s. rewrite skipn_app, skipn_all, Nat.sub_diag. cbn [app skipn].
    change (S (List.length after)) with (List.length (CHAR_DOT :: after)).
    apply firstn_all. }
  rewrite Hslice, Hlen.
  destruct before as [|c b]; [reflexivity|].
  assert (H1 : (Z.of_nat (List.length (c :: b)) =? -1)%Z = false)
    by (apply Z.eqb_neq; lia).
  assert (H2 : (Z.of_nat (List.length (c :: b) + S (List.length after))
                =? -1)%Z = false) by (apply Z.eqb_neq; lia).
  rewrite H1, H2. cbn [orb].
  destruct (N.eqb c CHAR_DOT) eqn:Ec.
  - cbn [Z.eqb orb andb].
    destruct b as [|c' b'], after as [|a0 after'];
      cbn [List.length];
      match goal with
      | |- (if ?x then _ else _) = _ =>
          let H := fresh in
          first [ assert (H : x = true) by (cbn; lia || reflexivity)
                | assert (H : x = false)
                    by (apply andb_false_iff;
                        first [ left; apply Z.eqb_neq; lia
                              | right; apply Z.eqb_neq; lia ]) ];
          rewrite H
      end; reflexivity.
  - cbn [Z.eqb orb andb].
    destruct b, after; reflexivity.
Qed.

Lemma extname_no_dot (s : list N) :
  forallb plain s = true -> extname s = [].
Proof.
  intros Hs. unfold extname.
  destruct s as [|c s']; [reflexivity|].
  assert (Hr : rev (c :: s') = rev (c :: s') ++ []) by (rewrite app_nil_r; reflexivity).
  rewrite Hr, loop_plain_run;
    [ reflexivity
    | intros E; apply (f_equal (@List.length N)) in E;
      rewrite length_rev in E; discriminate E
    | rewrite NumberFacts.forallb_rev'; exact Hs
    | reflexivity ].
Qed.

Lemma lastDotOnward_no_dot (s : list N) :
  forallb notDot s = true -> Spec.lastDotOnward s = [].
Proof.
  induction s as [|c s IH]; intros H; [reflexivity|].
  simpl in H. apply andb_true_iff in H. destruct H as [Hc Hs].
  cbn [Spec.lastDotOnward]. rewrite (IH Hs).
  unfold notDot in Hc. apply negb_true_iff in Hc. rewrite Hc. reflexivity.
Qed.

Lemma lastDotOnward_last_dot (before after : list N) :
  forallb notDot after = true ->
  Spec.lastDotOnward (before ++ CHAR_DOT :: after) = CHAR_DOT :: after.
Proof.
  intros Ha. induction before as [|c b IH].
  - cbn [app Spec.lastDotOnward]. rewrite (lastDotOnward_no_dot _ Ha).
    reflexivity.
  - cbn [app Spec.lastDotOnward]. rewrite IH. reflexivity.
Qed.

(** Every name has no dot or a last dot. *)
Lemma last_dot_split (s : list N) :
  forallb notDot s = true
  \/ exists before after,
       s = before ++ CHAR_DOT :: after /\ forallb notDot after = true.
Proof.
  induction s as [|c s IH]; [left; reflexivity|].
  destruct IH as [Hno|(before & after & -> & Ha)].
  - destruct (N.eqb_spec c CHAR_DOT) as [->|Hc].
    + right. exists [], s. split; [reflexivity|exact Hno].
    + left. cbn [forallb]. rewrite Hno. unfold notDot.
      apply N.eqb_neq in Hc. rewrite Hc. reflexivity.
  - right. exists (c :: before), after. split; [reflexivity|exact Ha].
Qed.

Lemma forallb_plain (s : list N) :
  forallb notSlash s = true -> forallb notDot s = true ->
  forallb plain s = true.
Proof.
  induction s as [|c s IH]; intros H1 H2; [reflexivity|].
  cbn [forallb] in *. apply andb_true_iff in H1. apply andb_true_iff in H2.
  destruct H1 as [A1 B1], H2 as [A2 B2].
  apply andb_true_iff. split; [|apply IH; assumption].
  unfold plain. rewrite A1, A2. reflexivity.
Qed.

(** On a name without a slash the extension is the substring from the
    last dot onward, unless that dot is the first character of the name
    or the name is [".."]: then, and when there is no dot, it is empty. *)
Lemma extname_plain_name (name : jsstring) :
  forallb notSlash name = true ->
  extname name =
  if Nat.eqb (List.length (Spec.lastDotOnward name)) (List.length name)
     || JS.eqb name (lit "..")
  then []
  else Spec.lastDotOnward name.
Proof.
  intros Hns.
  destruct (last_dot_split name) as [Hno|(before & after & -> & Ha)].
  - rewrite extname_no_dot by (apply forallb_plain; assumption).
    rewrite lastDotOnward_no_dot by exact Hno.
    destruct (_ || _); reflexivity.
  - rewrite forallb_app in Hns. apply andb_true_iff in Hns.
    destruct Hns as [Hb Hda]. cbn [forallb] in Hda.
    apply andb_true_iff in Hda. destruct Hda as [_ Hsa].
    rewrite extname_last_dot by (try apply forallb_plain; assumption).
    rewrite lastDotOnward_last_dot by exact Ha.
    destruct before as [|c b].
    + cbn [app]. rewrite Nat.eqb_refl. reflexivity.
    + assert (Hl : Nat.eqb (List.length (CHAR_DOT :: after))
                     (List.length ((c :: b) ++ CHAR_DOT :: after)) = false).
      { apply Nat.eqb_neq. rewrite length_app. cbn [List.length]. lia. }
      rewrite Hl. cbn [orb].
      destruct b as [|c' b'], after as [|a0 after'].
      * cbn. change (N.eqb c 46) with (N.eqb c CHAR_DOT).
        destruct (N.eqb c CHAR_DOT); reflexivity.
      * cbn. rewrite andb_false_r. reflexivity.
      * cbn. destruct b'; cbn; rewrite !andb_false_r; reflexivity.
      * cbn. destruct b'; cbn; rewrite !andb_false_r; reflexivity.
Qed.

End PathFacts.

(** ** The key generator *)

Module KeyFacts.

Import NumberFacts.

(** C10. The key depends on the file name only through its extension:
    two non-empty names with the same [path.extname], sanitised at the
    same clock reading with the same token, get the same key. *)
Theorem sanitizeFileName_extension_only
    (now : Z) (uniqueId : jsstring) (name1 name2 : jsstring) :
  name1 <> [] -> name2 <> [] ->
  Path.extname name1 = Path.extname name2 ->
  sanitizeFileName now uniqueId (Some name1)
  = sanitizeFileName now uniqueId (Some name2).
Proof.
  intros H1 H2 He. unfold sanitizeFileName.
  destruct name1 as [|c1 n1]; [congruence|].
  destruct name2 as [|c2 n2]; [congruence|].
  cbn [truthy negb]. rewrite He. reflexivity.
Qed.

Lemma sanitizeFileName_extension_only_witness :
  sanitizeFileName Demo.now Demo.token (Some (lit "a.png"))
  = sanitizeFileName Demo.now Demo.token
      (Some ([25105; 30340]%N ++ lit " photo (1).png")).
Proof.
  apply (@sanitizeFileName_extension_only Demo.now Demo.token (lit "a.png")
           ([25105; 30340]%N ++ lit " photo (1).png")).
  - discriminate.
  - discriminate.
  - vm_compute. reflexivity.
Defined.

(** C1. The extension is copied into the key as it stands, so a name
    whose extension holds a space or a non-ASCII character yields a key
    outside [[A-Za-z0-9_.]]: here ["draft v1.0 final"], whose extension
    is [".0 final"], and a name with a Chinese extension. *)
Theorem sanitizeFileName_unsafe_extension :
  sanitizeFileName Demo.now Demo.token (Some (lit "draft v1.0 final"))
  = lit "prod_1700000000000_01ARZ3NDEKTSV4RRFFQ69G5FAV.0 final"
  /\ forallb Spec.safeChar
       (sanitizeFileName Demo.now Demo.token (Some (lit "draft v1.0 final")))
     = false
  /\ sanitizeFileName Demo.now Demo.token
       (Some [25991; 20214; 46; 22270; 29255]%N)
     = lit "prod_1700000000000_01ARZ3NDEKTSV4RRFFQ69G5FAV."
       ++ [22270; 29255]%N
  /\ forallb Spec.safeChar
       (sanitizeFileName Demo.now Demo.token
          (Some [25991; 20214; 46; 22270; 29255]%N))
     = false.
Proof.
  repeat split; vm_compute; reflexivity.
Qed.

Lemma forallb_weaken (f g : N -> bool) (l : list N) :
  (forall c, f c = true -> g c = true) ->
  forallb f l = true -> forallb g l = true.
Proof.
  intros Hfg. induction l as [|c l IH]; [reflexivity|].
  cbn [forallb]. intros H. apply andb_true_iff in H. destruct H as [Hc Hl].
  rewrite (Hfg _ Hc), (IH Hl). reflexivity.
Qed.

Lemma isDigit_safe (c : N) : Spec.isDigit c = true -> Spec.safeChar c = true.
Proof.
  unfold Spec.isDigit, Spec.safeChar. intros ->.
  rewrite orb_true_r. reflexivity.
Qed.

Lemma isCrockford_safe (c : N) :
  Spec.isCrockford c = true -> Spec.safeChar c = true.
Proof.
  unfold Spec.isCrockford, Spec.safeChar. intros H.
  apply orb_true_iff in H. destruct H as [H|H].
  - unfold Spec.isDigit in H. rewrite H, orb_true_r. reflexivity.
  - apply andb_true_iff in H. destruct H as [H _]. rewrite H. reflexivity.
Qed.

(** What is right in C1: at a non-negative clock reading and with a
    well-formed token, the key of a non-empty name is within
    [[A-Za-z0-9_.]] exactly when the extension of the name is. *)
Lemma sanitizeFileName_safe_iff_extension_safe
    (now : Z) (uniqueId name : jsstring) :
  (0 <= now)%Z -> Spec.isToken uniqueId = true -> name <> [] ->
  forallb Spec.safeChar (sanitizeFileName now uniqueId (Some name))
  = forallb Spec.safeChar (Path.extname name).
Proof.
  intros Hn Hu Hne. destruct name as [|c n]; [congruence|].
  unfold sanitizeFileName. cbn [truthy negb].
  rewrite !forallb_app.
  assert (Hd : forallb Spec.safeChar (numberToString now) = true).
  { unfold numberToString. destruct (Z.ltb_spec now 0); [lia|].
    rewrite forallb_rev'.
    apply forallb_weaken with (f := Spec.isDigit); [exact isDigit_safe|].
    apply decimalRev_digits, Hn. }
  assert (Ht : forallb Spec.safeChar uniqueId = true).
  { unfold Spec.isToken in Hu. apply andb_true_iff in Hu.
    apply forallb_weaken with (f := Spec.isCrockford);
      [exact isCrockford_safe|apply Hu]. }
  rewrite Hd, Ht. reflexivity.
Qed.

Lemma keyPattern_intro (now : Z) (uniqueId ext : jsstring) :
  Spec.thirteenDigits now -> Spec.isToken uniqueId = true ->
  Spec.keyPattern ext
    (lit "prod_" ++ numberToString now ++ lit "_" ++ uniqueId ++ ext).
Proof.
  intros Hn Hu. destruct (numberToString_13 Hn) as [Hl Hd].
  exists (numberToString now), uniqueId. repeat split; assumption.
Qed.

(** C4, as the code has it.  At a thirteen-digit clock reading and with
    a 26-character token, the key of a non-empty name matches
    [prod_<13digits>_<26charToken><ext>] with [<ext>] the name's
    [path.extname]; on a name without a slash that is the substring from
    the last dot onward, except that it is empty when that dot is the
    first character of the name or the name is [".."] (and when there is
    no dot); the key of an empty or absent name matches the pattern with
    [.bin]. *)
Theorem sanitizeFileName_key_pattern (now : Z) (uniqueId : jsstring) :
  Spec.thirteenDigits now -> Spec.isToken uniqueId = true ->
  (forall name, name <> [] ->
     Spec.keyPattern (Path.extname name)
       (sanitizeFileName now uniqueId (Some name)))
  /\ (forall name, forallb Path.notSlash name = true ->
        Path.extname name =
        if Nat.eqb (List.length (Spec.lastDotOnward name)) (List.length name)
           || JS.eqb name (lit "..")
        then []
        else Spec.lastDotOnward name)
  /\ Spec.keyPattern (lit ".bin") (sanitizeFileName now uniqueId (Some []))
  /\ Spec.keyPattern (lit ".bin") (sanitizeFileName now uniqueId None).
Proof.
  intros Hn Hu. repeat split.
  - intros name Hne. destruct name as [|c n]; [congruence|].
    unfold sanitizeFileName. cbn [truthy negb].
    apply keyPattern_intro; assumption.
  - apply PathFacts.extname_plain_name.
  - apply keyPattern_intro; assumption.
  - apply keyPattern_intro; assumption.
Qed.

Lemma sanitizeFileName_key_pattern_witness :
  Spec.keyPattern (lit ".png")
    (sanitizeFileName Demo.now Demo.token (Some (lit "my photo.png")))
  /\ Spec.keyPattern (lit ".bin") (sanitizeFileName Demo.now Demo.token None).
Proof.
  assert (Hn : Spec.thirteenDigits Demo.now) by (unfold Spec.thirteenDigits, Demo.now; lia).
  assert (Hu : Spec.isToken Demo.token = true) by reflexivity.
  destruct (@sanitizeFileName_key_pattern Demo.now Demo.token Hn Hu)
    as (Hname & _ & _ & Habsent).
  split.
  - apply (Hname (lit "my photo.png")). discriminate.
  - exact Habsent.
Defined.

(** C4, as the specification words it, fails on a hidden file: the
    substring of [".env"] from its last dot onward is [".env"], its
    [path.extname] is empty, and the key carries no extension. *)
Lemma sanitizeFileName_hidden_file_counterexample :
  Spec.lastDotOnward (lit ".env") = lit ".env"
  /\ sanitizeFileName Demo.now Demo.token (Some (lit ".env"))
     = lit "prod_1700000000000_01ARZ3NDEKTSV4RRFFQ69G5FAV"
  /\ ~ Spec.keyPattern (Spec.lastDotOnward (lit ".env"))
         (sanitizeFileName Demo.now Demo.token (Some (lit ".env"))).
Proof.
  split; [reflexivity|]. split; [reflexivity|].
  intros (digits & tok & Hk & Hd & _ & Ht).
  apply (f_equal (@List.length N)) in Hk.
  unfold Spec.isToken in Ht. apply andb_true_iff in Ht.
  destruct Ht as [Ht _]. apply Nat.eqb_eq in Ht.
  rewrite !length_app, Hd, Ht in Hk. vm_compute in Hk. discriminate Hk.
Qed.

End KeyFacts.

(** ** Strings and the base64 pattern *)

Module StringFacts.

Lemma startsWith_app (p t : jsstring) : startsWith p (p ++ t) = true.
Proof.
  induction p as [|x p IH]; [reflexivity|].
  cbn [app startsWith]. rewrite N.eqb_refl. exact IH.
Qed.

Lemma startsWith_inv (p : jsstring) :
  forall s, startsWith p s = true -> exists t, s = p ++ t.
Proof.
  induction p as [|x p IH]; intros s H.
  - exists s. reflexivity.
  - destruct s as [|y s]; [discriminate H|].
    cbn [startsWith] in H. apply andb_true_iff in H. destruct H as [Hx Hp].
    apply N.eqb_eq in Hx. subst y.
    destruct (IH _ Hp) as [t ->]. exists t. reflexivity.
Qed.

(** Removing the first occurrence of a prefix removes the prefix. *)
Lemma removeFirst_prefix (p t : jsstring) : removeFirst p (p ++ t) = t.
Proof.
  destruct p as [|x p].
  - destruct t; reflexivity.
  - cbn [app removeFirst].
    change (x :: p ++ t) with ((x :: p) ++ t).
    rewrite startsWith_app, skipn_app, skipn_all, Nat.sub_diag.
    reflexivity.
Qed.

Lemma removeTrailingSlash_spec (s : jsstring) :
  Spec.withoutTrailingSlash s (removeTrailingSlash s).
Proof.
  unfold Spec.withoutTrailingSlash, removeTrailingSlash.
  destruct (rev s) as [|c r] eqn:E.
  - right. split; [reflexivity|]. intros t' ->.
    rewrite rev_app_distr in E. discriminate E.
  - assert (Hs : s = rev r ++ [c]).
    { rewrite <- (rev_involutive s), E. reflexivity. }
    destruct (N.eqb_spec c CHAR_FORWARD_SLASH) as [->|Hc].
    + left. exact Hs.
    + right. split; [reflexivity|]. intros t' Ht. rewrite Hs in Ht.
      apply app_inj_tail in Ht. destruct Ht as [_ Ht]. contradiction.
Qed.

Lemma takeWhile_dropWhile (f : N -> bool) (s : jsstring) :
  s = Spec.takeWhile f s ++ dropWhile f s
  /\ forallb f (Spec.takeWhile f s) = true.
Proof.
  induction s as [|c s [IH1 IH2]]; [split; reflexivity|].
  cbn [Spec.takeWhile dropWhile]. destruct (f c) eqn:E.
  - cbn [app forallb]. rewrite E, IH2. split; [f_equal; exact IH1|reflexivity].
  - split; reflexivity.
Qed.







End StringFacts.

(** ** The provider *)

#[local] Arguments lit : simpl never.
#[local] Arguments sanitizeFileName : simpl never.
#[local] Arguments publicUrl : simpl never.

Section ProviderFacts.

Context {P : Platform}.

(** What an upload with a usable file name does, case by case. *)
Lemma upload_run (this : Service) (f : ProviderUploadFileDTO)
    (c : N) (n : jsstring) (w : World) :
  filename f = Some (c :: n) ->
  upload this (Some f) w =
  let fileKey := keyIn w (c :: n) in
  let prefix := lit "Failed to upload file: " in
  match normalizeContent (content f) with
  | inl e => rethrown prefix e (after w (store w)) []
  | inr body =>
      match encodeURIComponent (c :: n) with
      | inl e => rethrown prefix e (after w (store w)) []
      | inr original =>
          let put := PutObjectCommand
                       (putRequest this f fileKey body original) in
          match s3_send put (store w) with
          | (inl e, s') => rethrown prefix e (after w s') [Sent put]
          | (inr _, s') =>
              mkRun (Return (mkResult (publicUrl this fileKey) fileKey))
                    (after w s')
                    [Sent put;
                     Logged info (lit "Successfully uploaded file "
                                  ++ fileKey ++ lit " to S3 bucket "
                                  ++ this_bucket this)]
          end
      end
  end.
Proof.
  intros Hf. unfold upload. rewrite Hf.
  unfold tryCatch, bind, sanitize, Date_now, ulid, liftThrown, send, log,
    throw, ret, rethrown, putRequest, keyIn, after.
  cbn.
  destruct (normalizeContent (content f)) as [e|body]; cbn; [reflexivity|].
  destruct (encodeURIComponent (c :: n)) as [e|original]; cbn; [reflexivity|].
  destruct (s3_send _ (store w)) as [[e|out] s']; cbn; reflexivity.
Qed.

(** An upload sends nothing or one PUT, and a returned result carries
    the derived URL of the generated key. *)
Lemma upload_sent (this : Service) (file : option ProviderUploadFileDTO)
    (w : World) (p : PutObjectInput) :
  In (Sent (PutObjectCommand p)) (events (upload this file w)) ->
  exists f c n body original,
    file = Some f /\ filename f = Some (c :: n)
    /\ normalizeContent (content f) = inr body
    /\ encodeURIComponent (c :: n) = inr original
    /\ p = putRequest this f (keyIn w (c :: n)) body original.
Proof.
  intros Hin. destruct file as [f|]; [|contradiction Hin].
  destruct (filename f) as [[|c n]|] eqn:Hf;
    try (unfold upload in Hin; rewrite Hf in Hin; contradiction Hin).
  rewrite (upload_run this f w Hf) in Hin. cbv zeta in Hin.
  exists f, c, n.
  destruct (normalizeContent (content f)) as [e|body].
  { cbn in Hin. destruct Hin as [Hin|[]]. discriminate Hin. }
  destruct (encodeURIComponent (c :: n)) as [e|original].
  { cbn in Hin. destruct Hin as [Hin|[]]. discriminate Hin. }
  exists body, original. repeat split; try reflexivity; try assumption.
  destruct (s3_send _ (store w)) as [[e|out] s']; cbn in Hin;
    destruct Hin as [Hin|[Hin|[]]]; congruence.
Qed.

Lemma upload_returned (this : Service) (file : option ProviderUploadFileDTO)
    (w : World) (r : ProviderFileResultDTO) :
  outcome (upload this file w) = Return r ->
  exists f c n,
    file = Some f /\ filename f = Some (c :: n)
    /\ key r = keyIn w (c :: n)
    /\ url r = publicUrl this (key r).
Proof.
  intros Hr. destruct file as [f|]; [|discriminate Hr].
  destruct (filename f) as [[|c n]|] eqn:Hf;
    try (unfold upload in Hr; rewrite Hf in Hr; discriminate Hr).
  rewrite (upload_run this f w Hf) in Hr. cbv zeta in Hr.
  exists f, c, n.
  destruct (normalizeContent (content f)) as [e|body]; [discriminate Hr|].
  destruct (encodeURIComponent (c :: n)) as [e|original]; [discriminate Hr|].
  destruct (s3_send _ (store w)) as [[e|out] s']; cbn in Hr;
    [discriminate Hr|].
  injection Hr as <-. repeat split; try reflexivity; assumption.
Qed.

Lemma publicUrl_cases (o : S3FileProviderOptions) (k : jsstring) :
  (forall base, file_url o = Some base -> base <> [] ->
     exists b, Spec.withoutTrailingSlash base b
               /\ publicUrl (instance o) k = b ++ lit "/" ++ k)
  /\ (truthy (file_url o) = false ->
      forall e, endpoint o = Some e -> e <> [] ->
      exists e' protocol host,
        Spec.withoutTrailingSlash e e'
        /\ endpointParts e' protocol host
        /\ publicUrl (instance o) k =
           if flagSet (s3ForcePathStyle o)
           then protocol ++ host ++ lit "/" ++ bucket o ++ lit "/" ++ k
           else protocol ++ bucket o ++ lit "." ++ host ++ lit "/" ++ k)
  /\ (truthy (file_url o) = false -> truthy (endpoint o) = false ->
      publicUrl (instance o) k =
      lit "https://" ++ bucket o ++ lit ".s3." ++ region o
      ++ lit ".amazonaws.com/" ++ k).
Proof.
  unfold publicUrl, instance. cbn [fileUrl config_ this_bucket].
  split; [|split].
  - intros base -> Hne. destruct base as [|c f]; [congruence|].
    exists (removeTrailingSlash (c :: f)).
    split; [apply StringFacts.removeTrailingSlash_spec|reflexivity].
  - intros Hfu e -> Hne. destruct e as [|c e]; [congruence|].
    assert (Hcase : match file_url o with
                    | Some (_ :: _) => False
                    | _ => True
                    end).
    { destruct (file_url o) as [[|]|]; cbn in Hfu; congruence || exact I. }
    set (e' := removeTrailingSlash (c :: e)).
    assert (Hparts : exists protocol host,
      endpointParts e' protocol host
      /\ (if startsWith (lit "http://") e'
          then (lit "http://", removeFirst (lit "http://") e')
          else if startsWith (lit "https://") e'
          then (lit "https://", removeFirst (lit "https://") e')
          else (lit "https://", e')) = (protocol, host)).
    { destruct (startsWith (lit "http://") e') eqn:E1.
      - destruct (StringFacts.startsWith_inv _ _ E1) as [host Hh].
        exists (lit "http://"), host. split; [left; auto|].
        rewrite Hh, StringFacts.removeFirst_prefix. reflexivity.
      - destruct (startsWith (lit "https://") e') eqn:E2.
        + destruct (StringFacts.startsWith_inv _ _ E2) as [host Hh].
          exists (lit "https://"), host. split; [right; left; auto|].
          rewrite Hh, StringFacts.removeFirst_prefix. reflexivity.
        + exists (lit "https://"), e'. split; [|reflexivity].
          right; right. auto. }
    destruct Hparts as (protocol & host & Hp & Heq).
    exists e', protocol, host.
    split; [apply StringFacts.removeTrailingSlash_spec|]. split; [exact Hp|].
    destruct (file_url o) as [[|]|]; try contradiction;
      rewrite Heq; reflexivity.
  - intros Hfu He.
    destruct (file_url o) as [[|]|]; cbn in Hfu; try discriminate Hfu;
      destruct (endpoint o) as [[|]|]; cbn in He; try discriminate He;
      reflexivity.
Qed.

(** C5. A returned upload carries the URL derived from the
    configuration and the generated key, with the precedence public base
    URL, custom endpoint, standard regional URL; the two worked examples
    evaluate as stated. *)
Theorem upload_url_derivation :
  (forall o file w r,
      outcome (upload (instance o) file w) = Return r ->
      url r = publicUrl (instance o) (key r))
  /\ (forall o k,
        (forall base, file_url o = Some base -> base <> [] ->
           exists b, Spec.withoutTrailingSlash base b
                     /\ publicUrl (instance o) k = b ++ lit "/" ++ k)
        /\ (truthy (file_url o) = false ->
            forall e, endpoint o = Some e -> e <> [] ->
            exists e' protocol host,
              Spec.withoutTrailingSlash e e'
              /\ endpointParts e' protocol host
              /\ publicUrl (instance o) k =
                 if flagSet (s3ForcePathStyle o)
                 then protocol ++ host ++ lit "/" ++ bucket o
                      ++ lit "/" ++ k
                 else protocol ++ bucket o ++ lit "." ++ host
                      ++ lit "/" ++ k)
        /\ (truthy (file_url o) = false -> truthy (endpoint o) = false ->
            publicUrl (instance o) k =
            lit "https://" ++ bucket o ++ lit ".s3." ++ region o
            ++ lit ".amazonaws.com/" ++ k))
  /\ publicUrl (instance Demo.cdnOptions) (lit "prod_1_abc.png")
     = lit "https://cdn.example.com/prod_1_abc.png"
  /\ publicUrl (instance Demo.options) (lit "k.png")
     = lit "http://minio.local:9000/media/k.png".
Proof.
  split; [|split; [|split]].
  - intros o file w r Hr.
    destruct (upload_returned _ _ _ Hr) as (f & c & n & _ & _ & _ & Hu).
    exact Hu.
  - apply publicUrl_cases.
  - vm_compute. reflexivity.
  - vm_compute. reflexivity.
Qed.

(** C6. Without a file, or with a file whose name is absent or empty,
    [upload] throws [INVALID_DATA] and does nothing else: no request, no
    log line, the world as it was. *)
Theorem upload_rejects_missing_filename
    (this : Service) (file : option ProviderUploadFileDTO) (w : World) :
  file = None \/ (exists f, file = Some f /\ truthy (filename f) = false) ->
  (exists msg,
      outcome (upload this file w) = Throw (MedusaError INVALID_DATA msg))
  /\ events (upload this file w) = []
  /\ world (upload this file w) = w.
Proof.
  intros [->|(f & -> & Hf)].
  - cbn. eauto.
  - unfold upload.
    destruct (filename f) as [[|c n]|]; cbn in Hf; try discriminate Hf;
      cbn; eauto.
Qed.

(** C8. The PUT request of an upload carries [ACL: 'public-read']
    exactly when [s3ForcePathStyle] is unset or false, and no ACL when
    it is true; an upload whose file name and content are usable does
    send that request. *)
Theorem upload_acl
    (this : Service) (file : option ProviderUploadFileDTO) (w : World) :
  (forall p,
      In (Sent (PutObjectCommand p)) (events (upload this file w)) ->
      (put_ACL p = Some (lit "public-read")
       <-> (s3ForcePathStyle (config_ this) = None
            \/ s3ForcePathStyle (config_ this) = Some false))
      /\ (s3ForcePathStyle (config_ this) = Some true -> put_ACL p = None))
  /\ (forall f c n body original,
        file = Some f -> filename f = Some (c :: n) ->
        normalizeContent (content f) = inr body ->
        encodeURIComponent (c :: n) = inr original ->
        In (Sent (PutObjectCommand
                    (putRequest this f (keyIn w (c :: n)) body original)))
           (events (upload this file w))).
Proof.
  split.
  - intros p Hin.
    destruct (upload_sent _ _ _ _ Hin)
      as (f & c & n & body & original & _ & _ & _ & _ & ->).
    unfold putRequest. cbn [put_ACL].
    destruct (s3ForcePathStyle (config_ this)) as [[|]|]; cbn.
    + split; [split|]; [discriminate|intros [H|H]; discriminate H|reflexivity].
    + split; [split|]; [auto|reflexivity|discriminate].
    + split; [split|]; [auto|reflexivity|discriminate].
  - intros f c n body original -> Hf Hb Ho.
    rewrite (upload_run this f w Hf). cbv zeta. rewrite Hb, Ho.
    destruct (s3_send _ (store w)) as [[e|out] s']; cbn; left; reflexivity.
Qed.


(** What [getPresignedUploadUrl] does with a usable file name. *)
Lemma getPresignedUploadUrl_run (this : Service)
    (fileData : option ProviderGetPresignedUploadUrlDTO)
    (c : N) (n : jsstring) (w : World) :
  optFilename fileData = Some (c :: n) ->
  getPresignedUploadUrl this fileData w =
  let fileKey := keyIn w (c :: n) in
  let put := PutObjectCommand
               (mkPut (this_bucket this) fileKey None None [] None) in
  match getSignedUrl put 900 (store w) with
  | inl e =>
      rethrown (lit "Failed to generate presigned upload URL: ") e
               (after w (store w)) [Presigned put 900]
  | inr u =>
      mkRun (Return (mkResult u fileKey)) (after w (store w))
            [Presigned put 900]
  end.
Proof.
  intros Hf. unfold getPresignedUploadUrl. rewrite Hf.
  unfold tryCatch, bind, sanitize, Date_now, ulid, presign, log, throw, ret,
    rethrown, keyIn, after.
  cbn. change (15 * 60)%Z with 900%Z.
  destruct (getSignedUrl _ 900 (store w)) as [e|u]; cbn; reflexivity.
Qed.

(** C9. Without a file name [getPresignedUploadUrl] throws
    [INVALID_DATA] and signs nothing.  With one, it signs a single PUT
    for the key the key generator gives, for 15 * 60 seconds (and logs
    an error if signing fails), and returns that key with the signed
    URL; the key is the one [upload] returns for the same name in the
    same world. *)
Theorem getPresignedUploadUrl_key_and_expiry
    (this : Service) (fileData : option ProviderGetPresignedUploadUrlDTO)
    (w : World) :
  (truthy (optFilename fileData) = false ->
   outcome (getPresignedUploadUrl this fileData w)
   = Throw (MedusaError INVALID_DATA (lit "No filename provided"))
   /\ events (getPresignedUploadUrl this fileData w) = [])
  /\ (forall name, optFilename fileData = Some name -> name <> [] ->
      let fileKey :=
        sanitizeFileName (clock w) (ulids w (drawn w)) (Some name) in
      let put := PutObjectCommand
                   (mkPut (this_bucket this) fileKey None None [] None) in
      (events (getPresignedUploadUrl this fileData w)
       = [Presigned put (15 * 60)]
       \/ exists msg,
            events (getPresignedUploadUrl this fileData w)
            = [Presigned put (15 * 60); Logged error msg])
      /\ (forall u, getSignedUrl put (15 * 60) (store w) = inr u ->
            outcome (getPresignedUploadUrl this fileData w)
            = Return (mkResult u fileKey))
      /\ (forall r, outcome (getPresignedUploadUrl this fileData w)
                    = Return r -> key r = fileKey)
      /\ (forall f r, filename f = Some name ->
            outcome (upload this (Some f) w) = Return r ->
            key r = fileKey)).
Proof.
  split.
  - intros Hf. unfold getPresignedUploadUrl.
    destruct (optFilename fileData) as [[|c n]|]; cbn in Hf;
      try discriminate Hf; cbn; split; reflexivity.
  - intros name Hf Hne. destruct name as [|c n]; [congruence|].
    cbv zeta. rewrite (getPresignedUploadUrl_run this fileData w Hf).
    cbv zeta. change (15 * 60)%Z with 900%Z. unfold keyIn.
    repeat split.
    + destruct (getSignedUrl _ 900 (store w)); cbn; eauto.
    + intros u Hu. rewrite Hu. reflexivity.
    + intros r Hr.
      destruct (getSignedUrl _ 900 (store w)); cbn in Hr;
        [discriminate Hr|]. injection Hr as <-. reflexivity.
    + intros f r Hname Hr.
      destruct (upload_returned _ _ _ Hr) as (f' & c' & n' & Hf' & Hn & Hk & _).
      injection Hf' as <-. rewrite Hname in Hn. injection Hn as <- <-.
      exact Hk.
Qed.

(** *** delete *)

(** One turn of the loop on an item with a key: the request is sent,
    its fate is logged ([info] or [warn]), and the loop goes on. *)
Lemma deleteLoop_step (this : Service) (f : option ProviderGetFileDTO)
    (c : N) (k : jsstring) (rest : list (option ProviderGetFileDTO))
    (w : World) :
  optFileKey f = Some (c :: k) ->
  deleteLoop this (f :: rest) w =
  let cmd := DeleteObjectCommand (this_bucket this) (c :: k) in
  let line :=
    match fst (s3_send cmd (store w)) with
    | inl e => Logged warn (lit "Failed to delete file " ++ (c :: k)
                            ++ lit ": " ++ message e)
    | inr _ => Logged info (lit "Successfully deleted file " ++ (c :: k)
                            ++ lit " from S3 bucket " ++ this_bucket this)
    end in
  let r := deleteLoop this rest (moved w (snd (s3_send cmd (store w)))) in
  mkRun (outcome r) (world r) (Sent cmd :: line :: events r).
Proof.
  intros Hk. cbn [deleteLoop]. rewrite Hk.
  unfold tryCatch, bind, send, log, moved. cbn.
  destruct (s3_send _ (store w)) as [[e|out] s']; cbn;
    destruct (outcome (deleteLoop this rest _)); reflexivity.
Qed.

Lemma deleteLoop_requests (this : Service)
    (files : list (option ProviderGetFileDTO)) :
  forall w,
    sentCommands (events (deleteLoop this files w))
    = map (DeleteObjectCommand (this_bucket this)) (keyedPrefix files)
    /\ (forall msg, ~ In (Logged error msg)
                         (events (deleteLoop this files w)))
    /\ outcome (deleteLoop this files w)
       = if forallb hasKey files then Return tt
         else Throw (MedusaError INVALID_DATA (lit "No file key provided")).
Proof.
  induction files as [|f rest IH]; intros w.
  - cbn. repeat split. intros msg [].
  - destruct (optFileKey f) as [[|c k]|] eqn:Hk.
    + cbn [deleteLoop keyedPrefix forallb]. unfold hasKey at 1.
      rewrite Hk. cbn. repeat split. intros msg [].
    + rewrite (deleteLoop_step this f rest w Hk). cbv zeta.
      cbn [events outcome sentCommands keyedPrefix forallb map].
      unfold hasKey at 1. rewrite Hk. cbn [truthy andb].
      destruct (IH (moved w (snd (s3_send
                  (DeleteObjectCommand (this_bucket this) (c :: k))
                  (store w))))) as (Hs & Hl & Ho).
      repeat split.
      * destruct (fst (s3_send _ (store w))); cbn [sentCommands];
          rewrite Hs; reflexivity.
      * intros msg [Hin|[Hin|Hin]]; [discriminate Hin| |exact (Hl msg Hin)].
        destruct (fst (s3_send _ (store w))); discriminate Hin.
      * exact Ho.
    + cbn [deleteLoop keyedPrefix forallb]. unfold hasKey at 1.
      rewrite Hk. cbn. repeat split. intros msg [].
Qed.

(** The loop on two lists joined, the first with keys throughout: the
    loop on the first, then the loop on the second in the world the
    first left. *)
Lemma deleteLoop_append (this : Service)
    (xs ys : list (option ProviderGetFileDTO)) :
  forall w,
    forallb hasKey xs = true ->
    outcome (deleteLoop this xs w) = Return tt
    /\ events (deleteLoop this (xs ++ ys) w)
       = events (deleteLoop this xs w)
         ++ events (deleteLoop this ys (world (deleteLoop this xs w)))
    /\ outcome (deleteLoop this (xs ++ ys) w)
       = outcome (deleteLoop this ys (world (deleteLoop this xs w))).
Proof.
  induction xs as [|f xs IH]; intros w Hall.
  - cbn. repeat split.
  - cbn [forallb] in Hall. apply andb_true_iff in Hall.
    destruct Hall as [Hf Hxs]. unfold hasKey in Hf.
    destruct (optFileKey f) as [[|c k]|] eqn:Hk; try discriminate Hf.
    cbn [app]. rewrite !(deleteLoop_step this f _ w Hk). cbv zeta.
    cbn [outcome world events].
    destruct (IH (moved w (snd (s3_send
                (DeleteObjectCommand (this_bucket this) (c :: k))
                (store w)))) Hxs) as (H1 & H2 & H3).
    split; [exact H1|]. split; [|exact H3].
    rewrite H2. reflexivity.
Qed.

(** C3, as the code has it.  The items are handled in order, each
    checked when its turn comes: a delete request goes out for every
    item before the first one without a key and for none from there on,
    whatever the store answers; the call returns when every item has a
    key and throws [INVALID_DATA] otherwise; no error line is ever
    logged; and for every item reached, wherever it stands in the list,
    the request is followed by one log line, a warning with the store's
    message when the store refuses it and an information line when the
    store accepts it, after which the loop goes on with the items that
    follow. *)
Theorem delete_best_effort
    (this : Service) (fileData : DeleteArgument) (w : World) :
  sentCommands (events (delete this fileData w))
  = map (DeleteObjectCommand (this_bucket this))
        (keyedPrefix (filesOf fileData))
  /\ (forallb hasKey (filesOf fileData) = true ->
      outcome (delete this fileData w) = Return tt)
  /\ (forallb hasKey (filesOf fileData) = false ->
      outcome (delete this fileData w)
      = Throw (MedusaError INVALID_DATA (lit "No file key provided")))
  /\ (forall msg, ~ In (Logged error msg) (events (delete this fileData w)))
  /\ (forall before f c k rest,
        filesOf fileData = before ++ f :: rest ->
        forallb hasKey before = true ->
        optFileKey f = Some (c :: k) ->
        let reached := delete this (ManyFiles before) w in
        let cmd := DeleteObjectCommand (this_bucket this) (c :: k) in
        let answer := s3_send cmd (store (world reached)) in
        let line :=
          match fst answer with
          | inl e =>
              Logged warn (lit "Failed to delete file " ++ (c :: k)
                           ++ lit ": " ++ message e)
          | inr _ =>
              Logged info (lit "Successfully deleted file " ++ (c :: k)
                           ++ lit " from S3 bucket " ++ this_bucket this)
          end in
        let r := delete this (ManyFiles rest)
                   (moved (world reached) (snd answer)) in
        outcome reached = Return tt
        /\ events (delete this fileData w)
           = events reached ++ Sent cmd :: line :: events r
        /\ outcome (delete this fileData w) = outcome r).
Proof.
  unfold delete. fold (filesOf fileData).
  destruct (deleteLoop_requests this (filesOf fileData) w) as (Hs & Hl & Ho).
  split; [exact Hs|]. split; [|split; [|split]].
  - intros H. rewrite Ho, H. reflexivity.
  - intros H. rewrite Ho, H. reflexivity.
  - exact Hl.
  - intros before f c k rest Hfiles Hb Hk. cbv zeta.
    rewrite Hfiles.
    destruct (deleteLoop_append this before (f :: rest) w Hb)
      as (H1 & H2 & H3).
    rewrite H2, H3, (deleteLoop_step this f rest _ Hk). cbv zeta.
    cbn [events outcome]. repeat split. exact H1.
Qed.

(** *** getAsBuffer *)

Lemma getAsBuffer_run (this : Service) (fileData : option ProviderGetFileDTO)
    (c : N) (k : jsstring) (w : World) :
  optFileKey fileData = Some (c :: k) ->
  getAsBuffer this fileData w =
  let get := GetObjectCommand (this_bucket this) (c :: k) in
  let prefix := lit "Failed to get buffer: " in
  let w' := moved w (snd (s3_send get (store w))) in
  match fst (s3_send get (store w)) with
  | inl e => rethrown prefix e w' [Sent get]
  | inr response =>
      match Body response with
      | None =>
          rethrown prefix
            (MedusaError NOT_FOUND
               (lit "File " ++ (c :: k) ++ lit " not found or empty"))
            w' [Sent get]
      | Some stream =>
          match failure stream with
          | Some e => rethrown prefix e w' [Sent get]
          | None =>
              mkRun (Return (List.concat (chunks stream))) w'
                    [Sent get;
                     Logged info (lit "Retrieved buffer for file "
                                  ++ (c :: k))]
          end
      end
  end.
Proof.
  intros Hk. unfold getAsBuffer. rewrite Hk.
  unfold tryCatch, bind, send, collect, log, throw, ret, rethrown, moved.
  cbn.
  destruct (s3_send _ (store w)) as [[e|response] s']; cbn; [reflexivity|].
  destruct (Body response) as [stream|]; cbn; [|reflexivity].
  destruct (failure stream); cbn; reflexivity.
Qed.

(** Whatever the store answers, [getAsBuffer] never throws
    [NOT_FOUND]: the error of line 313 is thrown inside the [try] block
    and leaves the operation rewrapped as [UNEXPECTED_STATE]. *)
Lemma getAsBuffer_never_not_found (this : Service)
    (fileData : option ProviderGetFileDTO) (w : World) (msg : jsstring) :
  outcome (getAsBuffer this fileData w) <> Throw (MedusaError NOT_FOUND msg).
Proof.
  destruct (optFileKey fileData) as [[|c k]|] eqn:Hk;
    try (unfold getAsBuffer; rewrite Hk; cbn; discriminate).
  rewrite (getAsBuffer_run this fileData w Hk). cbv zeta.
  destruct (fst (s3_send _ (store w))) as [e|response]; [discriminate|].
  destruct (Body response) as [stream|]; [|discriminate].
  destruct (failure stream); discriminate.
Qed.

(** The other failures of [getAsBuffer]: without a key it throws
    [INVALID_DATA] before anything is sent; with a key, whatever it
    throws is [UNEXPECTED_STATE]. *)
Lemma getAsBuffer_failures (this : Service)
    (fileData : option ProviderGetFileDTO) (w : World) :
  (truthy (optFileKey fileData) = false ->
   outcome (getAsBuffer this fileData w)
   = Throw (MedusaError INVALID_DATA (lit "No file key provided"))
   /\ events (getAsBuffer this fileData w) = [])
  /\ (truthy (optFileKey fileData) = true ->
      forall e, outcome (getAsBuffer this fileData w) = Throw e ->
      exists msg, e = MedusaError UNEXPECTED_STATE msg).
Proof.
  destruct (optFileKey fileData) as [[|c k]|] eqn:Hk; cbn [truthy];
    (split; [intros Ht|intros Ht e He]); try discriminate Ht;
    try (unfold getAsBuffer; rewrite Hk; cbn; split; reflexivity).
  rewrite (getAsBuffer_run this fileData w Hk) in He. cbv zeta in He.
  destruct (fst (s3_send _ (store w))) as [e0|response].
  { injection He as <-. eauto. }
  destruct (Body response) as [stream|]; [|injection He as <-; eauto].
  destruct (failure stream); [injection He as <-; eauto|discriminate He].
Qed.

End ProviderFacts.

(** ** Runs on the in-memory platform *)

Module Runs.

#[local] Existing Instance Demo.platform.

Lemma upload_url_derivation_witness :
  outcome (upload (instance Demo.options) (Some Demo.photo) Demo.emptyWorld)
  = Return Demo.photoResult
  /\ url Demo.photoResult
     = publicUrl (instance Demo.options) (key Demo.photoResult).
Proof.
  assert (H : outcome (upload (instance Demo.options) (Some Demo.photo)
                         Demo.emptyWorld) = Return Demo.photoResult)
    by (vm_compute; reflexivity).
  split; [exact H|].
  exact (proj1 (@upload_url_derivation Demo.platform) Demo.options
           (Some Demo.photo) Demo.emptyWorld Demo.photoResult H).
Defined.

Lemma upload_rejects_missing_filename_witness :
  (exists msg,
      outcome (upload (instance Demo.options) (Some Demo.nameless)
                 Demo.emptyWorld)
      = Throw (MedusaError INVALID_DATA msg))
  /\ events (upload (instance Demo.options) (Some Demo.nameless)
               Demo.emptyWorld) = []
  /\ world (upload (instance Demo.options) (Some Demo.nameless)
              Demo.emptyWorld) = Demo.emptyWorld.
Proof.
  apply (@upload_rejects_missing_filename Demo.platform
           (instance Demo.options) (Some Demo.nameless) Demo.emptyWorld).
  right. exists Demo.nameless. split; reflexivity.
Defined.

Lemma upload_acl_witness :
  put_ACL (Demo.photoPut Demo.options) = None
  /\ put_ACL (Demo.photoPut Demo.cdnOptions) = Some (lit "public-read").
Proof.
  split.
  - destruct (proj1 (@upload_acl Demo.platform (instance Demo.options)
                       (Some Demo.photo) Demo.emptyWorld)
                    (Demo.photoPut Demo.options)) as [_ H].
    + vm_compute. left. reflexivity.
    + apply H. reflexivity.
  - destruct (proj1 (@upload_acl Demo.platform (instance Demo.cdnOptions)
                       (Some Demo.photo) Demo.emptyWorld)
                    (Demo.photoPut Demo.cdnOptions)) as [H _].
    + vm_compute. left. reflexivity.
    + apply H. left. reflexivity.
Defined.


Lemma getPresignedUploadUrl_key_and_expiry_witness :
  outcome (getPresignedUploadUrl (instance Demo.options)
             Demo.presignRequest Demo.emptyWorld)
  = Return (mkResult
              (lit "https://signed.example/" ++ Demo.photoKey
               ++ lit "?X-Amz-Expires=900")
              Demo.photoKey).
Proof.
  destruct (@getPresignedUploadUrl_key_and_expiry Demo.platform
              (instance Demo.options) Demo.presignRequest Demo.emptyWorld)
    as [_ H].
  destruct (H (lit "my photo.png")) as (_ & Hu & _).
  - reflexivity.
  - discriminate.
  - apply Hu. vm_compute. reflexivity.
Defined.

Lemma delete_best_effort_witness :
  outcome (delete (instance Demo.options)
             (ManyFiles [Demo.item (lit "a.png"); Demo.item (lit "b.png");
                         Demo.item (lit "c.png")])
             Demo.guardedWorld)
  = Return tt
  /\ sentCommands
       (events (delete (instance Demo.options)
                  (ManyFiles [Demo.item (lit "a.png");
                              Demo.item (lit "b.png");
                              Demo.item (lit "c.png")])
                  Demo.guardedWorld))
     = [DeleteObjectCommand (lit "media") (lit "a.png");
        DeleteObjectCommand (lit "media") (lit "b.png");
        DeleteObjectCommand (lit "media") (lit "c.png")]
  /\ events (delete (instance Demo.options)
               (ManyFiles [Demo.item (lit "a.png"); Demo.item (lit "b.png");
                           Demo.item (lit "c.png")])
               Demo.guardedWorld)
     = [Sent (DeleteObjectCommand (lit "media") (lit "a.png"));
        Logged info
          (lit "Successfully deleted file a.png from S3 bucket media");
        Sent (DeleteObjectCommand (lit "media") (lit "b.png"));
        Logged warn (lit "Failed to delete file b.png: AccessDenied");
        Sent (DeleteObjectCommand (lit "media") (lit "c.png"));
        Logged info
          (lit "Successfully deleted file c.png from S3 bucket media")].
Proof.
  destruct (@delete_best_effort Demo.platform (instance Demo.options)
              (ManyFiles [Demo.item (lit "a.png"); Demo.item (lit "b.png");
                          Demo.item (lit "c.png")])
              Demo.guardedWorld) as (Hs & Hr & _ & _ & Hline).
  split; [|split].
  - apply Hr. reflexivity.
  - rewrite Hs. reflexivity.
  - destruct (Hline [Demo.item (lit "a.png")] (Demo.item (lit "b.png"))
                    98%N (lit ".png") [Demo.item (lit "c.png")])
      as (_ & He & _).
    + reflexivity.
    + reflexivity.
    + reflexivity.
    + rewrite He. vm_compute. reflexivity.
Defined.

(** C3, as the specification words it, fails when an item without a key
    follows one with a key: the call throws [INVALID_DATA] after the
    delete request for the first item has gone to the store. *)
Lemma delete_late_validation_counterexample :
  outcome (delete (instance Demo.options)
             (ManyFiles [Demo.item (lit "a.png"); Demo.item []])
             Demo.emptyWorld)
  = Throw (MedusaError INVALID_DATA (lit "No file key provided"))
  /\ sentCommands
       (events (delete (instance Demo.options)
                  (ManyFiles [Demo.item (lit "a.png"); Demo.item []])
                  Demo.emptyWorld))
     = [DeleteObjectCommand (lit "media") (lit "a.png")].
Proof.
  split; vm_compute; reflexivity.
Qed.

(** C2. The store answers the GET for [ghost.png] without a body;
    [getAsBuffer] throws [UNEXPECTED_STATE], not [NOT_FOUND]. *)
Theorem getAsBuffer_absent_body_unexpected_state :
  fst (s3_send (GetObjectCommand (lit "media") (lit "ghost.png"))
               (store Demo.bodilessWorld))
  = inr (mkOutput None)
  /\ outcome (getAsBuffer (instance Demo.options)
                (Demo.item (lit "ghost.png")) Demo.bodilessWorld)
     = Throw (MedusaError UNEXPECTED_STATE
                (lit "Failed to get buffer: File ghost.png not found or empty")).
Proof.
  split; vm_compute; reflexivity.
Qed.

End Runs.

(** ** [path.extname] on any path *)

Module SegmentFacts.

Import Path Segment.

Lemma loop_skip_slashes (t : list N) :
  forall rest st,
    forallb isSlash t = true -> matchedSlash st = true ->
    extnameLoop (t ++ rest) st = extnameLoop rest st.
Proof.
  induction t as [|c t IH]; intros rest st Ht Hm; [reflexivity|].
  cbn [forallb] in Ht. apply andb_true_iff in Ht. destruct Ht as [Hc Ht].
  unfold isSlash in Hc. cbn [app extnameLoop]. rewrite Hc, Hm. cbn [negb].
  apply IH; assumption.
Qed.

Lemma loop_visitAll (l : list N) :
  forall rest st,
    forallb notSlash l = true ->
    extnameLoop (l ++ rest) st
    = extnameLoop rest (visitAll (Z.of_nat (List.length rest)) l st).
Proof.
  induction l as [|c l IH]; intros rest st Hl; [reflexivity|].
  cbn [forallb] in Hl. apply andb_true_iff in Hl. destruct Hl as [Hc Hl].
  unfold notSlash in Hc. apply negb_true_iff in Hc.
  cbn [app visitAll]. rewrite PathFacts.loop_step by exact Hc.
  rewrite IH by exact Hl. rewrite length_app, Nat2Z.inj_add.
  rewrite (Z.add_comm (Z.of_nat (List.length l))). reflexivity.
Qed.

Lemma loop_break (pre : list N) (st : ExtState) :
  matchedSlash st = false ->
  extnameLoop (CHAR_FORWARD_SLASH :: pre) st
  = mkExtState (startDot st) (Z.of_nat (List.length pre) + 1) (end_ st)
               (matchedSlash st) (preDotState st).
Proof.
  intros Hm. cbn [extnameLoop]. rewrite N.eqb_refl, Hm. reflexivity.
Qed.

Lemma visit_tracked (i n : Z) (c : N) (st : ExtState) :
  (0 <= i < n)%Z -> tracked i n st ->
  tracked (i - 1) n (visit i c st) /\ end_ (visit i c st) <> (-1)%Z.
Proof.
  intros Hi [Hcase Hp]. unfold tracked, visit.
  destruct (Z.eqb_spec (end_ st) (-1)) as [E|E];
    destruct (Z.eqb_spec (startDot st) (-1)) as [S|S];
    destruct (N.eqb c CHAR_DOT);
    cbn [startDot startPart end_ matchedSlash preDotState];
    (split; [split; [|exact Hp]|try lia]);
    destruct Hcase as [[He Hs]|(He & Hm & Hs)]; try lia;
    right; (split; [lia|]); (split; [assumption || reflexivity|]);
    solve [left; lia | right; lia | destruct Hs; [left; lia|right; lia]].
Qed.

Lemma visitAll_tracked (n : Z) (l : list N) :
  forall st,
    (Z.of_nat (List.length l) <= n)%Z ->
    tracked (Z.of_nat (List.length l) - 1) n st ->
    tracked (-1) n (visitAll 0 l st)
    /\ (l <> [] \/ end_ st <> (-1)%Z -> end_ (visitAll 0 l st) <> (-1)%Z).
Proof.
  induction l as [|c l IH]; intros st Hn Ht.
  - cbn [visitAll]. split; [exact Ht|]. intros [H|H]; congruence.
  - cbn [visitAll]. cbn [List.length] in Hn, Ht.
    rewrite Nat2Z.inj_succ in Hn, Ht.
    replace (Z.succ (Z.of_nat (List.length l)) - 1)%Z
      with (Z.of_nat (List.length l)) in Ht by lia.
    destruct (@visit_tracked (Z.of_nat (List.length l)) n c st
                ltac:(lia) Ht) as [Ht' He'].
    rewrite Z.add_0_l.
    destruct (IH _ ltac:(lia) Ht') as [H1 H2].
    split; [exact H1|]. intros _. apply H2. right. exact He'.
Qed.

Lemma visit_shift (o i : Z) (c : N) (st : ExtState) :
  (0 <= o)%Z -> (0 <= i)%Z ->
  (end_ st = -1 \/ 0 <= end_ st)%Z ->
  (startDot st = -1 \/ 0 <= startDot st)%Z ->
  visit (o + i) c (shift o st) = shift o (visit i c st).
Proof.
  intros Ho Hi He Hs. destruct st as [sd sp e m p]. unfold visit, shift.
  cbn [startDot startPart end_ matchedSlash preDotState] in *.
  destruct (Z.eqb_spec e (-1)), (Z.eqb_spec sd (-1));
    destruct (N.eqb c CHAR_DOT);
    cbn [startDot startPart end_ matchedSlash preDotState];
    repeat match goal with
           | |- context [Z.eqb ?a ?b] => destruct (Z.eqb_spec a b); try lia
           end;
    f_equal; lia.
Qed.

Lemma tracked_nonneg (i n : Z) (st : ExtState) :
  (0 <= i)%Z -> tracked i n st ->
  (end_ st = -1 \/ 0 <= end_ st)%Z /\ (startDot st = -1 \/ 0 <= startDot st)%Z.
Proof.
  intros Hi [[[He Hs]|(He & _ & [Hs|Hs])] _]; split; lia.
Qed.

Lemma visitAll_shift (o n : Z) (l : list N) :
  forall st,
    (0 <= o)%Z ->
    (Z.of_nat (List.length l) <= n)%Z ->
    tracked (Z.of_nat (List.length l) - 1) n st ->
    visitAll o l (shift o st) = shift o (visitAll 0 l st).
Proof.
  induction l as [|c l IH]; intros st Ho Hn Ht; [reflexivity|].
  cbn [visitAll]. cbn [List.length] in Hn, Ht.
  rewrite Nat2Z.inj_succ in Hn, Ht.
  replace (Z.succ (Z.of_nat (List.length l)) - 1)%Z
    with (Z.of_nat (List.length l)) in Ht by lia.
  destruct (@tracked_nonneg _ _ _ (Nat2Z.is_nonneg _) Ht) as [He Hs].
  rewrite visit_shift by (assumption || lia). rewrite Z.add_0_l.
  apply IH; [exact Ho|lia|].
  apply (@visit_tracked (Z.of_nat (List.length l)) n c st); [lia|exact Ht].
Qed.

Lemma shift_zero (st : ExtState) : shift 0 st = st.
Proof.
  destruct st as [sd sp e m p]. unfold shift.
  cbn [startDot startPart end_ matchedSlash preDotState].
  destruct (Z.eqb_spec sd (-1)), (Z.eqb_spec e (-1)); subst; f_equal; lia.
Qed.

Lemma tracked_initial (i n : Z) : tracked i n initial.
Proof. split; [left; split; reflexivity|reflexivity]. Qed.

(** The state at the end of the loop on a path made of anything up to a
    slash ([r2], right to left), a segment [rs] and trailing slashes
    [t]: that of the loop on the segment alone, moved right by the
    length of what precedes the segment. *)
Lemma loop_decomposed (t rs r2 : list N) :
  forallb isSlash t = true -> forallb notSlash rs = true -> rs <> [] ->
  (r2 = [] \/ exists pre, r2 = CHAR_FORWARD_SLASH :: pre) ->
  exists sd e p,
    extnameLoop rs initial = mkExtState sd 0 e false p
    /\ (0 <= e <= Z.of_nat (List.length rs))%Z
    /\ (sd = -1 \/ 0 <= sd < e)%Z
    /\ extnameLoop (t ++ rs ++ r2) initial
       = mkExtState
           (if (sd =? -1)%Z then -1 else sd + Z.of_nat (List.length r2))%Z
           (Z.of_nat (List.length r2))
           (e + Z.of_nat (List.length r2))%Z false p.
Proof.
  intros Ht Hrs Hne Hr2.
  set (n := Z.of_nat (List.length rs)).
  assert (Htr : tracked (n - 1) n initial) by apply tracked_initial.
  destruct (@visitAll_tracked n rs initial (Z.le_refl _) Htr) as [Hfin Hend].
  specialize (Hend (or_introl Hne)).
  assert (Hloop : extnameLoop rs initial = visitAll 0 rs initial).
  { rewrite <- (app_nil_r rs) at 1. rewrite loop_visitAll by exact Hrs.
    reflexivity. }
  destruct (visitAll 0 rs initial) as [sd sp e m p] eqn:ES.
  destruct Hfin as [Hcase Hsp].
  cbn [startDot startPart end_ matchedSlash] in Hcase, Hsp, Hend.
  destruct Hcase as [[He _]|(He & Hm & Hsd)]; [contradiction|]. subst sp m.
  exists sd, e, p. split; [exact Hloop|]. split; [lia|]. split; [lia|].
  rewrite loop_skip_slashes by (exact Ht || reflexivity).
  rewrite loop_visitAll by exact Hrs.
  assert (Hshift : visitAll (Z.of_nat (List.length r2)) rs initial
                   = shift (Z.of_nat (List.length r2))
                           (mkExtState sd 0 e false p)).
  { rewrite <- ES.
    change initial with (shift (Z.of_nat (List.length r2)) initial) at 1.
    apply (@visitAll_shift _ n); [lia|apply Z.le_refl|exact Htr]. }
  rewrite Hshift. unfold shift.
  cbn [startDot startPart end_ matchedSlash preDotState].
  assert (E : (e =? -1)%Z = false) by (apply Z.eqb_neq; lia). rewrite E.
  destruct Hr2 as [->|[pre ->]].
  - cbn [extnameLoop List.length]. reflexivity.
  - rewrite loop_break by reflexivity.
    cbn [startDot startPart end_ matchedSlash preDotState List.length].
    f_equal. lia.
Qed.

Lemma slice_inside (pre seg post : list N) (a b : Z) :
  (0 <= a <= b)%Z -> (b <= Z.of_nat (List.length seg))%Z ->
  slice (pre ++ seg ++ post) (a + Z.of_nat (List.length pre))
        (b + Z.of_nat (List.length pre))
  = slice seg a b.
Proof.
  intros Hab Hb. unfold slice.
  replace (b + Z.of_nat (List.length pre)
           - (a + Z.of_nat (List.length pre)))%Z with (b - a)%Z by lia.
  replace (Z.to_nat (a + Z.of_nat (List.length pre)))
    with (List.length pre + Z.to_nat a)%nat by lia.
  rewrite skipn_app, skipn_all2 by lia. cbn [app].
  replace (List.length pre + Z.to_nat a - List.length pre)%nat
    with (Z.to_nat a) by lia.
  rewrite skipn_app, firstn_app, length_skipn.
  replace (Z.to_nat (b - a) - (List.length seg - Z.to_nat a))%nat
    with 0%nat by lia.
  cbn [firstn]. apply app_nil_r.
Qed.

Lemma dropWhile_head (f : N -> bool) (s : jsstring) :
  dropWhile f s = []
  \/ exists c r, dropWhile f s = c :: r /\ f c = false.
Proof.
  induction s as [|c s IH]; [left; reflexivity|].
  cbn [dropWhile]. destruct (f c) eqn:E; [exact IH|].
  right. exists c, s. split; [reflexivity|exact E].
Qed.

(** [path.extname] looks at the last segment of the path only. *)
Lemma extname_lastSegment (path : jsstring) :
  extname path = extname (lastSegment path).
Proof.
  unfold lastSegment.
  set (rp := rev path).
  destruct (StringFacts.takeWhile_dropWhile isSlash rp) as [Hrp Ht].
  set (t := Spec.takeWhile isSlash rp) in *.
  set (r1 := dropWhile isSlash rp) in *.
  destruct (StringFacts.takeWhile_dropWhile notSlash r1) as [Hr1 Hrs].
  set (rs := Spec.takeWhile notSlash r1) in *.
  set (r2 := dropWhile notSlash r1) in *.
  assert (Hpath : path = rev r2 ++ rev rs ++ rev t).
  { rewrite <- (rev_involutive path). fold rp. rewrite Hrp, Hr1.
    rewrite !rev_app_distr, app_assoc. reflexivity. }
  destruct rs as [|c0 rs'] eqn:Ers.
  - (* no segment: the path is made of slashes *)
    assert (Hr1nil : r1 = []).
    { destruct (dropWhile_head isSlash rp) as [H|(c & r & H & Hc)];
        [exact H|]. fold r1 in H.
      subst rs. rewrite H in Ers. cbn [Spec.takeWhile] in Ers.
      unfold notSlash in Ers. unfold isSlash in Hc. rewrite Hc in Ers.
      discriminate Ers. }
    unfold extname at 1. fold rp. rewrite Hrp, Hr1nil, app_nil_r.
    rewrite <- (app_nil_r t), loop_skip_slashes by (exact Ht || reflexivity).
    reflexivity.
  - assert (Hr2 : r2 = [] \/ exists pre, r2 = CHAR_FORWARD_SLASH :: pre).
    { destruct (dropWhile_head notSlash r1) as [H|(c & r & H & Hc)];
        [left; exact H|right].
      fold r2 in H. exists r. rewrite H. f_equal.
      unfold notSlash in Hc. apply negb_false_iff in Hc.
      apply N.eqb_eq in Hc. exact Hc. }
    destruct (@loop_decomposed t (c0 :: rs') r2 Ht Hrs ltac:(discriminate) Hr2)
      as (sd & e & p & Hseg & He & Hsd & Hall).
    unfold extname. rewrite rev_involutive. fold rp.
    rewrite Hseg. rewrite Hrp, Hr1, Hall.
    cbn [startDot startPart end_ preDotState].
    destruct (Z.eqb_spec sd (-1)) as [->|Hn]; [reflexivity|].
    assert (E1 : (sd + Z.of_nat (List.length r2) =? -1)%Z = false)
      by (apply Z.eqb_neq; lia).
    assert (E2 : (e + Z.of_nat (List.length r2) =? -1)%Z = false)
      by (apply Z.eqb_neq; lia).
    assert (E3 : (e =? -1)%Z = false) by (apply Z.eqb_neq; lia).
    assert (E4 : (sd + Z.of_nat (List.length r2)
                  =? e + Z.of_nat (List.length r2) - 1)%Z
                 = (sd =? e - 1)%Z).
    { destruct (Z.eqb_spec sd (e - 1)); [apply Z.eqb_eq|apply Z.eqb_neq]; lia. }
    assert (E5 : (sd + Z.of_nat (List.length r2)
                  =? Z.of_nat (List.length r2) + 1)%Z
                 = (sd =? 0 + 1)%Z).
    { destruct (Z.eqb_spec sd (0 + 1)); [apply Z.eqb_eq|apply Z.eqb_neq]; lia. }
    rewrite E1, E2, E3, E4, E5.
    destruct (_ || _); [reflexivity|].
    rewrite Hpath. rewrite <- (length_rev r2).
    apply slice_inside; [lia|]. rewrite length_rev. lia.
Qed.

(** [path.extname] in closed form. *)
Lemma extname_closed_form (path : jsstring) :
  extname path = segmentExtension (lastSegment path).
Proof.
  rewrite extname_lastSegment. unfold segmentExtension.
  apply PathFacts.extname_plain_name.
  unfold lastSegment. rewrite NumberFacts.forallb_rev'.
  apply StringFacts.takeWhile_dropWhile.
Qed.

End SegmentFacts.

(** ** More on the key generator *)

Module KeyShape.

Import Path Segment.

(** X1. Whatever the name, the key is [prod_], the clock reading, [_],
    the token and an extension that is read off the last path segment of
    the name alone (trailing slashes dropped): the part of that segment
    from its last dot on, or nothing when the segment has no dot, only a
    leading dot, or is [".."]; [.bin] for an empty or absent name. *)
Theorem sanitizeFileName_closed_form
    (now : Z) (uniqueId : jsstring) (originalName : option jsstring) :
  sanitizeFileName now uniqueId originalName
  = lit "prod_" ++ numberToString now ++ lit "_" ++ uniqueId
    ++ keyExtension originalName.
Proof.
  unfold sanitizeFileName, keyExtension.
  destruct originalName as [[|c n]|]; cbn [truthy negb]; try reflexivity.
  rewrite SegmentFacts.extname_closed_form. reflexivity.
Qed.

Lemma app_same_length (A : Type) (l1 l2 r1 r2 : list A) :
  l1 ++ r1 = l2 ++ r2 -> List.length l1 = List.length l2 ->
  l1 = l2 /\ r1 = r2.
Proof.
  revert l2. induction l1 as [|x l1 IH]; intros [|y l2] H Hl;
    try discriminate Hl.
  - split; [reflexivity|exact H].
  - cbn [app] in H. injection H as -> H. injection Hl as Hl.
    destruct (IH _ H Hl) as [-> ->]. split; reflexivity.
Qed.

Lemma numberToString_injective (n1 n2 : Z) :
  (0 <= n1)%Z -> (0 <= n2)%Z ->
  numberToString n1 = numberToString n2 -> n1 = n2.
Proof.
  intros H1 H2 E.
  rewrite <- (NumberFacts.numberToString_value H1),
          <- (NumberFacts.numberToString_value H2), E.
  reflexivity.
Qed.

(** X2. Keys made at thirteen-digit clock readings with 26-character
    tokens are equal only if the clock readings are equal, the tokens
    are equal and the extensions are equal: a fresh token or a later
    millisecond always gives a different key. *)
Theorem sanitizeFileName_injective
    (now1 now2 : Z) (u1 u2 : jsstring) (name1 name2 : option jsstring) :
  Spec.thirteenDigits now1 -> Spec.thirteenDigits now2 ->
  List.length u1 = 26%nat -> List.length u2 = 26%nat ->
  sanitizeFileName now1 u1 name1 = sanitizeFileName now2 u2 name2 ->
  now1 = now2 /\ u1 = u2 /\ keyExtension name1 = keyExtension name2.
Proof.
  intros H1 H2 L1 L2 E.
  rewrite !sanitizeFileName_closed_form in E.
  apply app_inv_head in E.
  destruct (NumberFacts.numberToString_13 H1) as [D1 _].
  destruct (NumberFacts.numberToString_13 H2) as [D2 _].
  apply app_same_length in E; [|congruence]. destruct E as [En E].
  apply app_inv_head in E.
  apply app_same_length in E; [|congruence]. destruct E as [Eu Ee].
  unfold Spec.thirteenDigits in H1, H2.
  split; [apply numberToString_injective; (lia || exact En)|].
  split; assumption.
Qed.

Lemma sanitizeFileName_injective_witness :
  sanitizeFileName Demo.now (Demo.tokens 0) (Some (lit "a.png"))
  <> sanitizeFileName Demo.now (Demo.tokens 1) (Some (lit "a.png")).
Proof.
  intros E.
  destruct (@sanitizeFileName_injective Demo.now Demo.now (Demo.tokens 0)
              (Demo.tokens 1) (Some (lit "a.png")) (Some (lit "a.png")))
    as (_ & Hu & _).
  - unfold Spec.thirteenDigits, Demo.now. lia.
  - unfold Spec.thirteenDigits, Demo.now. lia.
  - reflexivity.
  - reflexivity.
  - exact E.
  - vm_compute in Hu. discriminate Hu.
Defined.

Lemma lastDotOnward_length (s : jsstring) :
  (List.length (Spec.lastDotOnward s) <= List.length s)%nat.
Proof.
  induction s as [|c s IH]; [apply le_n|].
  cbn [Spec.lastDotOnward].
  destruct (Spec.lastDotOnward s) as [|d later].
  - destruct (N.eqb c CHAR_DOT); cbn [List.length]; lia.
  - cbn [List.length] in *. lia.
Qed.

Lemma takeWhile_length (f : N -> bool) (s : jsstring) :
  (List.length (Spec.takeWhile f s) <= List.length s)%nat.
Proof.
  induction s as [|c s IH]; [apply le_n|].
  cbn [Spec.takeWhile]. destruct (f c); cbn [List.length]; lia.
Qed.

Lemma dropWhile_length (f : N -> bool) (s : jsstring) :
  (List.length (dropWhile f s) <= List.length s)%nat.
Proof.
  induction s as [|c s IH]; [apply le_n|].
  cbn [dropWhile]. destruct (f c); cbn [List.length]; lia.
Qed.

Lemma segmentExtension_length (seg : jsstring) :
  (List.length (segmentExtension seg) <= List.length seg)%nat.
Proof.
  unfold segmentExtension. destruct (_ || _); cbn [List.length]; [lia|].
  apply lastDotOnward_length.
Qed.

Lemma lastSegment_length (path : jsstring) :
  (List.length (lastSegment path) <= List.length path)%nat.
Proof.
  unfold lastSegment. rewrite length_rev.
  etransitivity; [apply takeWhile_length|].
  etransitivity; [apply dropWhile_length|].
  rewrite length_rev. apply le_n.
Qed.

(** X3. At a thirteen-digit clock reading and with a 26-character
    token, a key is 45 characters and its extension long; the key of a
    non-empty name is at most 45 characters longer than the name, that
    of an empty or absent name has 49 characters. *)
Theorem sanitizeFileName_length
    (now : Z) (uniqueId : jsstring) (originalName : option jsstring) :
  Spec.thirteenDigits now -> List.length uniqueId = 26%nat ->
  List.length (sanitizeFileName now uniqueId originalName)
  = (45 + List.length (keyExtension originalName))%nat
  /\ (forall name, originalName = Some name -> name <> [] ->
        (List.length (sanitizeFileName now uniqueId originalName)
         <= 45 + List.length name)%nat)
  /\ (truthy originalName = false ->
      List.length (sanitizeFileName now uniqueId originalName) = 49%nat).
Proof.
  intros Hn Hu. destruct (NumberFacts.numberToString_13 Hn) as [Hd _].
  assert (Hlen : List.length (sanitizeFileName now uniqueId originalName)
                 = (45 + List.length (keyExtension originalName))%nat).
  { rewrite sanitizeFileName_closed_form, !length_app, Hd, Hu.
    reflexivity. }
  split; [exact Hlen|]. split.
  - intros name -> Hne. rewrite Hlen.
    destruct name as [|c n]; [congruence|]. cbn [keyExtension].
    pose proof (segmentExtension_length (lastSegment (c :: n))).
    pose proof (lastSegment_length (c :: n)). lia.
  - intros Ht. rewrite Hlen.
    destruct originalName as [[|c n]|]; cbn in Ht; try discriminate Ht;
      reflexivity.
Qed.

Lemma sanitizeFileName_length_witness :
  List.length (sanitizeFileName Demo.now Demo.token
                 (Some (lit "my photo.png")))
  = (45 + List.length (keyExtension (Some (lit "my photo.png"))))%nat.
Proof.
  assert (Hn : Spec.thirteenDigits Demo.now)
    by (unfold Spec.thirteenDigits, Demo.now; lia).
  assert (Hu : List.length Demo.token = 26%nat) by reflexivity.
  exact (proj1 (@sanitizeFileName_length Demo.now Demo.token
                  (Some (lit "my photo.png")) Hn Hu)).
Defined.

Lemma plain_notSlash (l : list N) :
  forallb plain l = true -> forallb notSlash l = true.
Proof.
  apply KeyFacts.forallb_weaken. intros c H. unfold plain in H.
  apply andb_true_iff in H. apply H.
Qed.

Lemma plain_no_dot (l : list N) :
  forallb plain l = true -> filter (N.eqb CHAR_DOT) l = [].
Proof.
  induction l as [|c l IH]; intros H; [reflexivity|].
  cbn [forallb] in H. apply andb_true_iff in H. destruct H as [Hc Hl].
  destruct (PathFacts.plain_inv _ Hc) as [_ Hd].
  cbn [filter]. rewrite N.eqb_sym, Hd. apply IH, Hl.
Qed.

Lemma isDigit_plain (c : N) : Spec.isDigit c = true -> plain c = true.
Proof.
  unfold Spec.isDigit, plain, notSlash, notDot. intros H.
  apply andb_true_iff in H. destruct H as [H1 H2].
  apply N.leb_le in H1. apply N.leb_le in H2.
  apply andb_true_iff. split; apply negb_true_iff, N.eqb_neq;
    unfold CHAR_FORWARD_SLASH, CHAR_DOT; lia.
Qed.

Lemma isCrockford_plain (c : N) : Spec.isCrockford c = true -> plain c = true.
Proof.
  unfold Spec.isCrockford. intros H. apply orb_true_iff in H.
  destruct H as [H|H]; [apply isDigit_plain, H|].
  apply andb_true_iff in H. destruct H as [H _].
  apply andb_true_iff in H. destruct H as [H1 H2].
  apply N.leb_le in H1. apply N.leb_le in H2.
  unfold plain, notSlash, notDot.
  apply andb_true_iff. split; apply negb_true_iff, N.eqb_neq;
    unfold CHAR_FORWARD_SLASH, CHAR_DOT; lia.
Qed.

(** The extension of a segment is empty, or a dot followed by characters
    that are neither dots nor slashes. *)
Lemma segmentExtension_shape (seg : jsstring) :
  forallb notSlash seg = true ->
  segmentExtension seg = []
  \/ exists rest, segmentExtension seg = CHAR_DOT :: rest
                  /\ forallb plain rest = true.
Proof.
  intros Hs. unfold segmentExtension.
  destruct (_ || _); [left; reflexivity|].
  destruct (PathFacts.last_dot_split seg) as [Hno|(before & rest & -> & Hr)].
  - left. apply PathFacts.lastDotOnward_no_dot, Hno.
  - right. exists rest.
    rewrite PathFacts.lastDotOnward_last_dot by exact Hr.
    split; [reflexivity|].
    rewrite forallb_app in Hs. apply andb_true_iff in Hs.
    destruct Hs as [_ Hs]. cbn [forallb] in Hs.
    apply andb_true_iff in Hs. destruct Hs as [_ Hs].
    apply PathFacts.forallb_plain; assumption.
Qed.

Lemma keyExtension_shape (originalName : option jsstring) :
  keyExtension originalName = []
  \/ exists rest, keyExtension originalName = CHAR_DOT :: rest
                  /\ forallb plain rest = true.
Proof.
  destruct originalName as [[|c n]|];
    try (right; exists (lit "bin"); split; reflexivity).
  cbn [keyExtension]. apply segmentExtension_shape.
  unfold lastSegment. rewrite NumberFacts.forallb_rev'.
  apply StringFacts.takeWhile_dropWhile.
Qed.

(** X4. At a non-negative clock reading and with a token in Crockford's
    alphabet, no key contains a slash, whatever the name, and a key
    contains at most one dot: the extension is empty or a dot followed
    by characters that are neither dots nor slashes. *)
Theorem sanitizeFileName_separators
    (now : Z) (uniqueId : jsstring) (originalName : option jsstring) :
  (0 <= now)%Z -> forallb Spec.isCrockford uniqueId = true ->
  forallb notSlash (sanitizeFileName now uniqueId originalName) = true
  /\ (List.length (filter (N.eqb CHAR_DOT)
                     (sanitizeFileName now uniqueId originalName))
      <= 1)%nat
  /\ (keyExtension originalName = []
      \/ exists rest, keyExtension originalName = CHAR_DOT :: rest
                      /\ forallb plain rest = true).
Proof.
  intros Hn Hu.
  assert (Hp : forallb plain
                 (lit "prod_" ++ numberToString now ++ lit "_" ++ uniqueId)
               = true).
  { rewrite !forallb_app.
    assert (Hd : forallb plain (numberToString now) = true).
    { unfold numberToString. destruct (Z.ltb_spec now 0); [lia|].
      rewrite NumberFacts.forallb_rev'.
      apply KeyFacts.forallb_weaken with (f := Spec.isDigit);
        [exact isDigit_plain|].
      apply NumberFacts.decimalRev_digits, Hn. }
    assert (Ht : forallb plain uniqueId = true).
    { apply KeyFacts.forallb_weaken with (f := Spec.isCrockford);
        [exact isCrockford_plain|exact Hu]. }
    rewrite Hd, Ht. reflexivity. }
  assert (Hkey : sanitizeFileName now uniqueId originalName
                 = (lit "prod_" ++ numberToString now ++ lit "_" ++ uniqueId)
                   ++ keyExtension originalName).
  { rewrite sanitizeFileName_closed_form, <- !app_assoc. reflexivity. }
  rewrite Hkey, forallb_app, filter_app, length_app.
  rewrite (plain_notSlash _ Hp), (plain_no_dot _ Hp).
  destruct (keyExtension_shape originalName) as [E|(rest & E & Hr)];
    rewrite E.
  - repeat split; auto.
  - cbn [forallb filter]. rewrite (plain_notSlash _ Hr), N.eqb_refl.
    rewrite (plain_no_dot _ Hr). repeat split; eauto.
Qed.

Lemma sanitizeFileName_separators_witness :
  forallb notSlash
    (sanitizeFileName Demo.now Demo.token
       (Some (lit "../../etc/passwd.d/"))) = true.
Proof.
  assert (Hn : (0 <= Demo.now)%Z) by (unfold Demo.now; lia).
  assert (Hu : forallb Spec.isCrockford Demo.token = true) by reflexivity.
  exact (proj1 (@sanitizeFileName_separators Demo.now Demo.token
                  (Some (lit "../../etc/passwd.d/")) Hn Hu)).
Defined.

End KeyShape.

(** ** More on the provider *)

Section UploadFacts.

Context {P : Platform}.

(** An upload that passes validation draws one token and leaves the
    clock alone, whatever becomes of it. *)
Lemma upload_world (this : Service) (f : ProviderUploadFileDTO)
    (c : N) (n : jsstring) (w : World) :
  filename f = Some (c :: n) ->
  exists s', world (upload this (Some f) w) = after w s'.
Proof.
  intros Hf. rewrite (upload_run this f w Hf). cbv zeta.
  destruct (normalizeContent (content f)); [eexists; reflexivity|].
  destruct (encodeURIComponent (c :: n)); [eexists; reflexivity|].
  destruct (s3_send _ (store w)) as [[e|out] s']; eexists; reflexivity.
Qed.

(** The four ways an upload can go. *)
Lemma upload_cases (this : Service) (file : option ProviderUploadFileDTO)
    (w : World) :
  (exists msg,
      outcome (upload this file w) = Throw (MedusaError INVALID_DATA msg)
      /\ events (upload this file w) = [])
  \/ (exists cause,
        outcome (upload this file w)
        = Throw (MedusaError UNEXPECTED_STATE
                   (lit "Failed to upload file: " ++ cause))
        /\ events (upload this file w)
           = [Logged error (lit "Failed to upload file: " ++ cause)])
  \/ (exists cause p,
        outcome (upload this file w)
        = Throw (MedusaError UNEXPECTED_STATE
                   (lit "Failed to upload file: " ++ cause))
        /\ events (upload this file w)
           = [Sent (PutObjectCommand p);
              Logged error (lit "Failed to upload file: " ++ cause)]
        /\ put_Bucket p = this_bucket this)
  \/ (exists r p line,
        outcome (upload this file w) = Return r
        /\ events (upload this file w)
           = [Sent (PutObjectCommand p); Logged info line]
        /\ put_Bucket p = this_bucket this).
Proof.
  destruct file as [f|]; [|left; eexists; split; reflexivity].
  destruct (filename f) as [[|c n]|] eqn:Hf;
    try (left; unfold upload; rewrite Hf; eexists; split; reflexivity).
  rewrite (upload_run this f w Hf). cbv zeta.
  destruct (normalizeContent (content f)) as [e0|body];
    [right; left; exists (message e0); split; reflexivity|].
  destruct (encodeURIComponent (c :: n)) as [e0|original];
    [right; left; exists (message e0); split; reflexivity|].
  destruct (s3_send _ (store w)) as [[e0|out] s'].
  - right; right; left. exists (message e0). eexists.
    repeat split; reflexivity.
  - right; right; right. eexists. eexists. eexists.
    repeat split; reflexivity.
Qed.

(** X5. [upload] fails in two ways only: [INVALID_DATA] before anything
    happens, or [UNEXPECTED_STATE] with the message of the cause after
    [Failed to upload file: ], logged as an error.  It never signs,
    sends at most one request (no retry), and that request is a PUT to
    the configured bucket. *)
Theorem upload_failure_modes
    (this : Service) (file : option ProviderUploadFileDTO) (w : World) :
  (forall e, outcome (upload this file w) = Throw e ->
     (exists msg, e = MedusaError INVALID_DATA msg
                  /\ events (upload this file w) = [])
     \/ (exists cause,
           e = MedusaError UNEXPECTED_STATE
                 (lit "Failed to upload file: " ++ cause)
           /\ In (Logged error (lit "Failed to upload file: " ++ cause))
                 (events (upload this file w))))
  /\ (List.length (sentCommands (events (upload this file w))) <= 1)%nat
  /\ signedCommands (events (upload this file w)) = []
  /\ (forall c, In c (sentCommands (events (upload this file w))) ->
        exists p, c = PutObjectCommand p /\ put_Bucket p = this_bucket this).
Proof.
  destruct (upload_cases this file w)
    as [(msg & Ho & He)
       |[(cause & Ho & He)
        |[(cause & p & Ho & He & Hb)|(r & p & line & Ho & He & Hb)]]];
    rewrite Ho, He; cbn [sentCommands signedCommands List.length];
    (split; [|split; [lia|split; [reflexivity|]]]).
  - intros e E. injection E as <-. left. exists msg. split; reflexivity.
  - intros c [].
  - intros e E. injection E as <-. right. exists cause.
    split; [reflexivity|left; reflexivity].
  - intros c [].
  - intros e E. injection E as <-. right. exists cause.
    split; [reflexivity|right; left; reflexivity].
  - intros c [<-|[]]. exists p. split; [reflexivity|exact Hb].
  - intros e E. discriminate E.
  - intros c [<-|[]]. exists p. split; [reflexivity|exact Hb].
Qed.

(** X6. When the content cannot be turned into a buffer or the file
    name cannot be percent-encoded, the upload fails with
    [UNEXPECTED_STATE] before any request: nothing is sent and the store
    is as it was. *)
Theorem upload_conversion_failure
    (this : Service) (f : ProviderUploadFileDTO) (c : N) (n : jsstring)
    (w : World) (e : Thrown) :
  filename f = Some (c :: n) ->
  normalizeContent (content f) = inl e
  \/ ((exists body, normalizeContent (content f) = inr body)
      /\ encodeURIComponent (c :: n) = inl e) ->
  outcome (upload this (Some f) w)
  = Throw (MedusaError UNEXPECTED_STATE
             (lit "Failed to upload file: " ++ message e))
  /\ events (upload this (Some f) w)
     = [Logged error (lit "Failed to upload file: " ++ message e)]
  /\ store (world (upload this (Some f) w)) = store w.
Proof.
  intros Hf Hcase. rewrite (upload_run this f w Hf). cbv zeta.
  destruct Hcase as [Hc|[[body Hb] He]].
  - rewrite Hc. repeat split.
  - rewrite Hb, He. repeat split.
Qed.

(** X7. When the store refuses the PUT, the upload fails with
    [UNEXPECTED_STATE] carrying the store's message, after that one
    request and an error line: it does not try again. *)
Theorem upload_store_failure
    (this : Service) (f : ProviderUploadFileDTO) (c : N) (n : jsstring)
    (w : World) (body : Buffer) (original : jsstring) (e : Thrown)
    (s' : Store) :
  filename f = Some (c :: n) ->
  normalizeContent (content f) = inr body ->
  encodeURIComponent (c :: n) = inr original ->
  s3_send (PutObjectCommand
             (putRequest this f (keyIn w (c :: n)) body original))
          (store w) = (inl e, s') ->
  outcome (upload this (Some f) w)
  = Throw (MedusaError UNEXPECTED_STATE
             (lit "Failed to upload file: " ++ message e))
  /\ events (upload this (Some f) w)
     = [Sent (PutObjectCommand
                (putRequest this f (keyIn w (c :: n)) body original));
        Logged error (lit "Failed to upload file: " ++ message e)].
Proof.
  intros Hf Hb Ho Hs. rewrite (upload_run this f w Hf). cbv zeta.
  rewrite Hb, Ho, Hs. split; reflexivity.
Qed.

Lemma publicUrl_suffix (this : Service) (k : jsstring) :
  exists prefix, publicUrl this k = prefix ++ lit "/" ++ k.
Proof.
  unfold publicUrl.
  assert (Haws : exists prefix,
    lit "https://" ++ this_bucket this ++ lit ".s3."
    ++ region (config_ this) ++ lit ".amazonaws.com/" ++ k
    = prefix ++ lit "/" ++ k).
  { exists (lit "https://" ++ this_bucket this ++ lit ".s3."
            ++ region (config_ this) ++ lit ".amazonaws.com").
    change (lit ".amazonaws.com/") with (lit ".amazonaws.com" ++ lit "/").
    rewrite <- !app_assoc. reflexivity. }
  assert (Hend : forall e, exists prefix,
    (let '(protocol, endpoint) :=
       if startsWith (lit "http://") e
       then (lit "http://", removeFirst (lit "http://") e)
       else if startsWith (lit "https://") e
       then (lit "https://", removeFirst (lit "https://") e)
       else (lit "https://", e) in
     if flagSet (s3ForcePathStyle (config_ this))
     then protocol ++ endpoint ++ lit "/" ++ this_bucket this
          ++ lit "/" ++ k
     else protocol ++ this_bucket this ++ lit "." ++ endpoint
          ++ lit "/" ++ k)
    = prefix ++ lit "/" ++ k).
  { intros e.
    destruct (if startsWith (lit "http://") e
              then (lit "http://", removeFirst (lit "http://") e)
              else if startsWith (lit "https://") e
              then (lit "https://", removeFirst (lit "https://") e)
              else (lit "https://", e)) as [protocol host].
    destruct (flagSet (s3ForcePathStyle (config_ this))).
    - exists (protocol ++ host ++ lit "/" ++ this_bucket this).
      rewrite <- !app_assoc. reflexivity.
    - exists (protocol ++ this_bucket this ++ lit "." ++ host).
      rewrite <- !app_assoc. reflexivity. }
  destruct (fileUrl this) as [[|c f]|].
  - destruct (endpoint (config_ this)) as [[|c e]|]; auto.
  - eexists. reflexivity.
  - destruct (endpoint (config_ this)) as [[|c e]|]; auto.
Qed.

(** X8. What a returned upload hands back is what it stored: the one
    request sent is a PUT to the configured bucket under the returned
    key, with the file's MIME type and the percent-encoded original
    name as its only metadata, and the returned URL ends in a slash and
    that key. *)
Theorem upload_result_consistent
    (this : Service) (f : ProviderUploadFileDTO) (w : World)
    (r : ProviderFileResultDTO) :
  outcome (upload this (Some f) w) = Return r ->
  exists name p original,
    filename f = Some name
    /\ sentCommands (events (upload this (Some f) w)) = [PutObjectCommand p]
    /\ put_Bucket p = this_bucket this
    /\ put_Key p = key r
    /\ put_ContentType p = mimeType f
    /\ encodeURIComponent name = inr original
    /\ put_Metadata p = [(lit "original-filename", original)]
    /\ exists prefix, url r = prefix ++ lit "/" ++ key r.
Proof.
  intros Hr.
  destruct (filename f) as [[|c n]|] eqn:Hf;
    try (unfold upload in Hr; rewrite Hf in Hr; discriminate Hr).
  rewrite (upload_run this f w Hf) in *. cbv zeta in *.
  destruct (normalizeContent (content f)) as [e|body]; [discriminate Hr|].
  destruct (encodeURIComponent (c :: n)) as [e|original] eqn:Ho;
    [discriminate Hr|].
  destruct (s3_send _ (store w)) as [[e|out] s']; [discriminate Hr|].
  cbn in Hr. injection Hr as <-.
  exists (c :: n), (putRequest this f (keyIn w (c :: n)) body original),
    original.
  repeat split; try assumption. apply publicUrl_suffix.
Qed.

(** X9. Two uploads, one after the other, never return the same key
    when the two tokens drawn are different 26-character tokens, even
    within the same millisecond and for the same file name. *)
Theorem upload_twice_distinct_keys
    (this : Service) (f1 f2 : ProviderUploadFileDTO) (w : World)
    (r1 r2 : ProviderFileResultDTO) :
  ulids w (drawn w) <> ulids w (S (drawn w)) ->
  List.length (ulids w (drawn w)) = 26%nat ->
  List.length (ulids w (S (drawn w))) = 26%nat ->
  outcome (upload this (Some f1) w) = Return r1 ->
  outcome (upload this (Some f2) (world (upload this (Some f1) w)))
  = Return r2 ->
  key r1 <> key r2.
Proof.
  intros Hne L1 L2 H1 H2 E.
  destruct (upload_returned _ _ _ H1) as (g1 & c1 & n1 & G1 & Hf1 & K1 & _).
  destruct (upload_returned _ _ _ H2) as (g2 & c2 & n2 & G2 & Hf2 & K2 & _).
  injection G1 as <-. injection G2 as <-.
  destruct (upload_world this f1 w Hf1) as [s' Hw].
  rewrite Hw in K2. unfold keyIn, after in K1, K2.
  cbn [clock ulids drawn] in K2.
  rewrite K1, K2, !KeyShape.sanitizeFileName_closed_form in E.
  apply app_inv_head, app_inv_head, app_inv_head in E.
  apply KeyShape.app_same_length in E; [|congruence].
  destruct E as [E _]. contradiction.
Qed.

(** X10. On a store that gives back what was put, [getAsBuffer] on the
    key of a returned upload, run in the world the upload left, returns
    the uploaded content as [upload] normalised it. *)
Theorem upload_then_getAsBuffer
    (this : Service) (f : ProviderUploadFileDTO) (w : World)
    (r : ProviderFileResultDTO) :
  readsBack ->
  outcome (upload this (Some f) w) = Return r ->
  exists body,
    normalizeContent (content f) = inr body
    /\ outcome (getAsBuffer this (Some (mkGetFile (Some (key r))))
                  (world (upload this (Some f) w)))
       = Return body.
Proof.
  intros Hlaw Hr.
  destruct (filename f) as [[|c n]|] eqn:Hf;
    try (unfold upload in Hr; rewrite Hf in Hr; discriminate Hr).
  rewrite (upload_run this f w Hf) in *. cbv zeta in *.
  destruct (normalizeContent (content f)) as [e|body]; [discriminate Hr|].
  destruct (encodeURIComponent (c :: n)) as [e|original];
    [discriminate Hr|].
  destruct (s3_send _ (store w)) as [[e|out] s'] eqn:Hs; [discriminate Hr|].
  cbn in Hr. injection Hr as <-. cbn [key world].
  exists body. split; [reflexivity|].
  destruct (Hlaw _ _ _ _ body Hs eq_refl)
    as (stream & s'' & Hget & Hok & Hbody).
  cbn [put_Bucket put_Key putRequest] in Hget.
  assert (Hkey : exists c0 k0, keyIn w (c :: n) = c0 :: k0).
  { unfold keyIn. rewrite KeyShape.sanitizeFileName_closed_form.
    change (lit "prod_") with ([112; 114; 111; 100; 95]%N).
    eexists. eexists. reflexivity. }
  destruct Hkey as (c0 & k0 & Hk). rewrite Hk in *.
  erewrite getAsBuffer_run by reflexivity.
  cbv zeta. unfold after. cbn [store]. rewrite Hget. cbn [fst snd Body].
  rewrite Hok, Hbody. reflexivity.
Qed.

End UploadFacts.

Section RetrievalFacts.

Context {P : Platform}.

Lemma getPresignedDownloadUrl_run (this : Service)
    (fileData : option ProviderGetFileDTO) (c : N) (k : jsstring)
    (w : World) :
  optFileKey fileData = Some (c :: k) ->
  getPresignedDownloadUrl this fileData w =
  let get := GetObjectCommand (this_bucket this) (c :: k) in
  match getSignedUrl get 86400 (store w) with
  | inl e =>
      rethrown (lit "Failed to generate presigned URL: ") e w
               [Presigned get 86400]
  | inr u =>
      mkRun (Return u) w
            [Presigned get 86400;
             Logged info (lit "Generated presigned URL for file "
                          ++ (c :: k))]
  end.
Proof.
  intros Hk. unfold getPresignedDownloadUrl. rewrite Hk.
  unfold tryCatch, bind, presign, log, throw, ret, rethrown. cbn.
  change (24 * 60 * 60)%Z with 86400%Z.
  destruct (getSignedUrl _ 86400 (store w)); cbn; reflexivity.
Qed.

(** X11. Without a key [getPresignedDownloadUrl] throws [INVALID_DATA]
    and signs nothing.  With one, it signs a single GET for that key in
    the configured bucket, for 24 * 60 * 60 seconds; it returns the
    signed URL, or throws [UNEXPECTED_STATE] with the signer's message;
    the world is left as it was. *)
Theorem getPresignedDownloadUrl_behaviour
    (this : Service) (fileData : option ProviderGetFileDTO) (w : World) :
  (truthy (optFileKey fileData) = false ->
   outcome (getPresignedDownloadUrl this fileData w)
   = Throw (MedusaError INVALID_DATA (lit "No file key provided"))
   /\ events (getPresignedDownloadUrl this fileData w) = [])
  /\ (forall k, optFileKey fileData = Some k -> k <> [] ->
      let get := GetObjectCommand (this_bucket this) k in
      signedCommands (events (getPresignedDownloadUrl this fileData w))
      = [(get, 24 * 60 * 60)%Z]
      /\ (forall u, getSignedUrl get (24 * 60 * 60) (store w) = inr u ->
            outcome (getPresignedDownloadUrl this fileData w) = Return u)
      /\ (forall e, getSignedUrl get (24 * 60 * 60) (store w) = inl e ->
            outcome (getPresignedDownloadUrl this fileData w)
            = Throw (MedusaError UNEXPECTED_STATE
                       (lit "Failed to generate presigned URL: "
                        ++ message e))))
  /\ world (getPresignedDownloadUrl this fileData w) = w.
Proof.
  destruct (optFileKey fileData) as [[|c k]|] eqn:Hk.
  2:{ rewrite (getPresignedDownloadUrl_run this fileData w Hk). cbv zeta.
      change (24 * 60 * 60)%Z with 86400%Z.
      split; [intros Ht; discriminate Ht|]. split.
      - intros k' Hk' _. injection Hk' as <-.
        destruct (getSignedUrl _ 86400 (store w)) as [e|u] eqn:Hs; cbn.
        + split; [reflexivity|]. split; intros x Hx; congruence.
        + split; [reflexivity|]. split; intros x Hx; congruence.
      - destruct (getSignedUrl _ 86400 (store w)); reflexivity. }
  all: unfold getPresignedDownloadUrl; rewrite Hk; cbn;
    (split; [intros _; split; reflexivity|]);
    (split; [|reflexivity]); intros k' Hk' Hne; congruence.
Qed.

Lemma getDownloadStream_run (this : Service)
    (fileData : option ProviderGetFileDTO) (c : N) (k : jsstring)
    (w : World) :
  optFileKey fileData = Some (c :: k) ->
  getDownloadStream this fileData w =
  let get := GetObjectCommand (this_bucket this) (c :: k) in
  let prefix := lit "Failed to get download stream: " in
  let w' := moved w (snd (s3_send get (store w))) in
  match fst (s3_send get (store w)) with
  | inl e => rethrown prefix e w' [Sent get]
  | inr response =>
      match Body response with
      | None =>
          rethrown prefix
            (MedusaError NOT_FOUND
               (lit "File " ++ (c :: k) ++ lit " not found or empty"))
            w' [Sent get]
      | Some stream =>
          mkRun (Return stream) w'
                [Sent get;
                 Logged info (lit "Retrieved download stream for file "
                              ++ (c :: k))]
      end
  end.
Proof.
  intros Hk. unfold getDownloadStream. rewrite Hk.
  unfold tryCatch, bind, send, log, throw, ret, rethrown, moved. cbn.
  destruct (s3_send _ (store w)) as [[e|response] s']; cbn; [reflexivity|].
  destruct (Body response) as [stream|]; cbn; reflexivity.
Qed.

(** X12. [getDownloadStream] never throws [NOT_FOUND]: without a key it
    throws [INVALID_DATA] and sends nothing, and with one everything it
    throws is [UNEXPECTED_STATE], also when the store answers without a
    body. *)
Theorem getDownloadStream_failures
    (this : Service) (fileData : option ProviderGetFileDTO) (w : World) :
  (forall msg, outcome (getDownloadStream this fileData w)
               <> Throw (MedusaError NOT_FOUND msg))
  /\ (truthy (optFileKey fileData) = false ->
      outcome (getDownloadStream this fileData w)
      = Throw (MedusaError INVALID_DATA (lit "No file key provided"))
      /\ events (getDownloadStream this fileData w) = [])
  /\ (forall k response s',
        optFileKey fileData = Some k -> k <> [] ->
        s3_send (GetObjectCommand (this_bucket this) k) (store w)
        = (inr response, s') ->
        Body response = None ->
        outcome (getDownloadStream this fileData w)
        = Throw (MedusaError UNEXPECTED_STATE
                   (lit "Failed to get download stream: File " ++ k
                    ++ lit " not found or empty"))).
Proof.
  destruct (optFileKey fileData) as [[|c k]|] eqn:Hk.
  2:{ rewrite (getDownloadStream_run this fileData w Hk). cbv zeta.
      split; [|split].
      - intros msg.
        destruct (fst (s3_send _ (store w))) as [e|response]; [discriminate|].
        destruct (Body response); discriminate.
      - intros Ht. discriminate Ht.
      - intros k' response s' Hk' _ Hs Hb. injection Hk' as <-.
        rewrite Hs. cbn [fst]. rewrite Hb. cbn [outcome rethrown message].
        change (lit "Failed to get download stream: File ")
          with (lit "Failed to get download stream: " ++ lit "File ").
        rewrite <- app_assoc. reflexivity. }
  all: unfold getDownloadStream; rewrite Hk; cbn;
    (split; [intros msg; discriminate|]);
    (split; [intros _; split; reflexivity|]);
    intros k' response s' Hk' Hne; congruence.
Qed.

(** X13. When the store answers a GET with a stream,
    [getDownloadStream] returns that very stream without reading it,
    while [getAsBuffer] reads it to its end: it returns the chunks
    joined in order if the stream ends well and throws
    [UNEXPECTED_STATE] with the stream's error otherwise.  Each sends
    exactly that one GET. *)
Theorem stream_and_buffer
    (this : Service) (k : jsstring) (w : World)
    (stream : Readable) (s' : Store) :
  k <> [] ->
  s3_send (GetObjectCommand (this_bucket this) k) (store w)
  = (inr (mkOutput (Some stream)), s') ->
  outcome (getDownloadStream this (Some (mkGetFile (Some k))) w)
  = Return stream
  /\ outcome (getAsBuffer this (Some (mkGetFile (Some k))) w)
     = match failure stream with
       | None => Return (List.concat (chunks stream))
       | Some e =>
           Throw (MedusaError UNEXPECTED_STATE
                    (lit "Failed to get buffer: " ++ message e))
       end
  /\ sentCommands
       (events (getDownloadStream this (Some (mkGetFile (Some k))) w))
     = [GetObjectCommand (this_bucket this) k]
  /\ sentCommands (events (getAsBuffer this (Some (mkGetFile (Some k))) w))
     = [GetObjectCommand (this_bucket this) k].
Proof.
  intros Hne Hs. destruct k as [|c k]; [congruence|].
  erewrite getDownloadStream_run by reflexivity.
  erewrite getAsBuffer_run by reflexivity.
  cbv zeta. rewrite Hs. cbn [fst snd Body].
  destruct (failure stream); repeat split.
Qed.

(** X14. Neither presign operation sends a request to the store or
    changes it. *)
Theorem presign_leaves_store
    (this : Service) (w : World)
    (up : option ProviderGetPresignedUploadUrlDTO)
    (down : option ProviderGetFileDTO) :
  sentCommands (events (getPresignedUploadUrl this up w)) = []
  /\ store (world (getPresignedUploadUrl this up w)) = store w
  /\ sentCommands (events (getPresignedDownloadUrl this down w)) = []
  /\ store (world (getPresignedDownloadUrl this down w)) = store w.
Proof.
  split; [|split; [|split]].
  - destruct (optFilename up) as [[|c n]|] eqn:Hf;
      try (unfold getPresignedUploadUrl; rewrite Hf; reflexivity).
    rewrite (getPresignedUploadUrl_run this up w Hf). cbv zeta.
    destruct (getSignedUrl _ 900 (store w)); reflexivity.
  - destruct (optFilename up) as [[|c n]|] eqn:Hf;
      try (unfold getPresignedUploadUrl; rewrite Hf; reflexivity).
    rewrite (getPresignedUploadUrl_run this up w Hf). cbv zeta.
    destruct (getSignedUrl _ 900 (store w)); reflexivity.
  - destruct (optFileKey down) as [[|c k]|] eqn:Hk;
      try (unfold getPresignedDownloadUrl; rewrite Hk; reflexivity).
    rewrite (getPresignedDownloadUrl_run this down w Hk). cbv zeta.
    destruct (getSignedUrl _ 86400 (store w)); reflexivity.
  - destruct (optFileKey down) as [[|c k]|] eqn:Hk;
      try (unfold getPresignedDownloadUrl; rewrite Hk; reflexivity).
    rewrite (getPresignedDownloadUrl_run this down w Hk). cbv zeta.
    destruct (getSignedUrl _ 86400 (store w)); reflexivity.
Qed.

(** X15. Deleting a list of items that all have keys and then a second
    list is the same as deleting the two lists joined: the same events
    in the same order, the same outcome, the same world. *)
Theorem delete_append
    (this : Service) (xs ys : list (option ProviderGetFileDTO)) (w : World) :
  forallb hasKey xs = true ->
  let first := delete this (ManyFiles xs) w in
  let second := delete this (ManyFiles ys) (world first) in
  outcome first = Return tt
  /\ events (delete this (ManyFiles (xs ++ ys)) w)
     = events first ++ events second
  /\ outcome (delete this (ManyFiles (xs ++ ys)) w) = outcome second
  /\ world (delete this (ManyFiles (xs ++ ys)) w) = world second.
Proof.
  unfold delete. revert w.
  induction xs as [|f xs IH]; intros w Hall; cbv zeta.
  - cbn. repeat split.
  - cbn [forallb] in Hall. apply andb_true_iff in Hall.
    destruct Hall as [Hf Hxs]. unfold hasKey in Hf.
    destruct (optFileKey f) as [[|c k]|] eqn:Hk; try discriminate Hf.
    cbn [app]. rewrite !(deleteLoop_step this f _ w Hk). cbv zeta.
    cbn [outcome world events].
    destruct (IH (moved w (snd (s3_send
                (DeleteObjectCommand (this_bucket this) (c :: k))
                (store w)))) Hxs) as (H1 & H2 & H3 & H4).
    cbv zeta in H1, H2, H3, H4.
    repeat split; try assumption. rewrite H2. reflexivity.
Qed.

End RetrievalFacts.

(** ** Options, client configuration and content detection *)

Module OptionFacts.

Lemma forEachField_returns (options : jsstring -> JSValue)
    (fields : list jsstring) :
  forEachField options fields = Return tt
  <-> forallb (fun f => toBoolean (options f)) fields = true.
Proof.
  induction fields as [|f fields IH]; [split; reflexivity|].
  cbn [forEachField forallb].
  destruct (toBoolean (options f)); cbn [negb andb]; [exact IH|].
  split; discriminate.
Qed.

Lemma forEachField_first_missing (options : jsstring -> JSValue)
    (before : list jsstring) (f : jsstring) (rest : list jsstring) :
  forallb (fun g => toBoolean (options g)) before = true ->
  toBoolean (options f) = false ->
  forEachField options (before ++ f :: rest)
  = Throw (MedusaError INVALID_DATA
             (f ++ lit " is required in the provider's options")).
Proof.
  induction before as [|g before IH]; intros Hb Hf.
  - cbn [app forEachField]. rewrite Hf. reflexivity.
  - cbn [forallb] in Hb. apply andb_true_iff in Hb. destruct Hb as [Hg Hb].
    cbn [app forEachField]. rewrite Hg. cbn [negb]. apply IH; assumption.
Qed.

(** X16. [validateOptions] returns exactly when [access_key_id],
    [secret_access_key], [region] and [bucket] are all truthy;
    otherwise it throws [INVALID_DATA] naming the first of them, in that
    order, that is missing or falsy. *)
Theorem validateOptions_behaviour (options : jsstring -> JSValue) :
  (validateOptions options = Return tt
   <-> forallb (fun f => toBoolean (options f)) requiredFields = true)
  /\ (forall before f rest,
        requiredFields = before ++ f :: rest ->
        forallb (fun g => toBoolean (options g)) before = true ->
        toBoolean (options f) = false ->
        validateOptions options
        = Throw (MedusaError INVALID_DATA
                   (f ++ lit " is required in the provider's options"))).
Proof.
  split; [apply forEachField_returns|].
  intros before f rest Hr Hb Hf. unfold validateOptions. rewrite Hr.
  apply forEachField_first_missing; assumption.
Qed.

Lemma validateOptions_behaviour_witness :
  validateOptions Sample.fullOptions = Return tt
  /\ validateOptions Sample.partialOptions
     = Throw (MedusaError INVALID_DATA
                (lit "region is required in the provider's options")).
Proof.
  destruct (validateOptions_behaviour Sample.fullOptions) as [[_ Hok] _].
  destruct (validateOptions_behaviour Sample.partialOptions) as [_ Hmiss].
  split.
  - apply Hok. reflexivity.
  - apply (Hmiss [lit "access_key_id"; lit "secret_access_key"]
                 (lit "region") [lit "bucket"]); reflexivity.
Defined.

End OptionFacts.

Section ConfigFacts.

Context {P : Platform}.




End ConfigFacts.

(** ** More runs on concrete platforms *)

Module MoreRuns.

Lemma eqb_refl (s : jsstring) : JS.eqb s s = true.
Proof.
  induction s as [|c s IH]; [reflexivity|].
  cbn [JS.eqb]. rewrite N.eqb_refl. exact IH.
Qed.

(** The in-memory store gives back what was put. *)
Lemma demo_readsBack : @readsBack Demo.platform.
Proof.
  intros p s out s' b Hs Hb. cbn in Hs. injection Hs as _ <-.
  exists (mkReadable [b] None), (Demo.mkBucket
            ((put_Key p, put_Body p)
               :: Demo.remove (put_Key p) (Demo.objects s))
            (Demo.refused s)).
  split; [|split; [reflexivity|apply app_nil_r]].
  cbn. rewrite eqb_refl, Hb. reflexivity.
Qed.

Lemma upload_conversion_failure_witness :
  outcome (upload (P := Sample.broken) (instance Demo.options)
             (Some Sample.brokenBlob) Sample.brokenWorld)
  = Throw (MedusaError UNEXPECTED_STATE
             (lit "Failed to upload file: not a buffer"))
  /\ sentCommands
       (events (upload (P := Sample.broken) (instance Demo.options)
                  (Some Sample.brokenBlob) Sample.brokenWorld)) = [].
Proof.
  destruct (@upload_conversion_failure Sample.broken (instance Demo.options)
              Sample.brokenBlob 98%N (lit "lob.bin") Sample.brokenWorld
              (PlatformError (lit "not a buffer")))
    as (Ho & He & _).
  - reflexivity.
  - left. reflexivity.
  - split; [exact Ho|]. rewrite He. reflexivity.
Defined.

Lemma upload_store_failure_witness :
  outcome (upload (P := Sample.broken) (instance Demo.options)
             (Some Sample.brokenPhoto) Sample.brokenWorld)
  = Throw (MedusaError UNEXPECTED_STATE
             (lit "Failed to upload file: AccessDenied")).
Proof.
  destruct (@upload_store_failure Sample.broken (instance Demo.options)
              Sample.brokenPhoto 109%N (lit "y photo.png")
              Sample.brokenWorld Demo.hello (lit "my%20photo.png")
              (PlatformError (lit "AccessDenied")) tt) as [Ho _].
  - reflexivity.
  - vm_compute. reflexivity.
  - vm_compute. reflexivity.
  - reflexivity.
  - exact Ho.
Defined.

Lemma upload_result_consistent_witness :
  exists name p original,
    filename Demo.photo = Some name
    /\ sentCommands
         (events (upload (P := Demo.platform) (instance Demo.options)
                    (Some Demo.photo) Demo.emptyWorld))
       = [PutObjectCommand p]
    /\ put_Bucket p = lit "media"
    /\ put_Key p = Demo.photoKey
    /\ put_ContentType p = Some (lit "image/png")
    /\ @encodeURIComponent Demo.platform name = inr original
    /\ put_Metadata p = [(lit "original-filename", original)]
    /\ exists prefix,
         url Demo.photoResult = prefix ++ lit "/" ++ Demo.photoKey.
Proof.
  apply (@upload_result_consistent Demo.platform (instance Demo.options)
           Demo.photo Demo.emptyWorld Demo.photoResult).
  vm_compute. reflexivity.
Defined.

Lemma upload_twice_distinct_keys_witness :
  key Demo.photoResult
  <> lit "prod_1700000000000_01BX5ZZKBKACTAV9WEVGEMMVRZ.png".
Proof.
  apply (@upload_twice_distinct_keys Demo.platform (instance Demo.options)
           Demo.photo Demo.photo Demo.emptyWorld Demo.photoResult
           (mkResult
              (lit "http://minio.local:9000/media/prod_1700000000000_01BX5ZZKBKACTAV9WEVGEMMVRZ.png")
              (lit "prod_1700000000000_01BX5ZZKBKACTAV9WEVGEMMVRZ.png"))).
  - vm_compute. discriminate.
  - reflexivity.
  - reflexivity.
  - vm_compute. reflexivity.
  - vm_compute. reflexivity.
Defined.

Lemma upload_then_getAsBuffer_witness :
  exists body,
    normalizeContent (P := Demo.platform) (content Demo.photo) = inr body
    /\ outcome (getAsBuffer (P := Demo.platform) (instance Demo.options)
                  (Some (mkGetFile (Some (key Demo.photoResult))))
                  (world (upload (P := Demo.platform)
                            (instance Demo.options) (Some Demo.photo)
                            Demo.emptyWorld)))
       = Return body.
Proof.
  apply (@upload_then_getAsBuffer Demo.platform (instance Demo.options)
           Demo.photo Demo.emptyWorld Demo.photoResult).
  - exact demo_readsBack.
  - vm_compute. reflexivity.
Defined.

Lemma stream_and_buffer_witness :
  outcome (getDownloadStream (P := Sample.broken) (instance Demo.options)
             (Some (mkGetFile (Some (lit "k.png")))) Sample.brokenWorld)
  = Return Sample.brokenStream
  /\ outcome (getAsBuffer (P := Sample.broken) (instance Demo.options)
                (Some (mkGetFile (Some (lit "k.png")))) Sample.brokenWorld)
     = Throw (MedusaError UNEXPECTED_STATE
                (lit "Failed to get buffer: aborted")).
Proof.
  destruct (@stream_and_buffer Sample.broken (instance Demo.options)
              (lit "k.png") Sample.brokenWorld Sample.brokenStream tt)
    as (Hs & Hb & _).
  - discriminate.
  - reflexivity.
  - split; [exact Hs|exact Hb].
Defined.

Lemma delete_append_witness :
  events (delete (P := Demo.platform) (instance Demo.options)
            (ManyFiles ([Demo.item (lit "a.png")]
                        ++ [Demo.item (lit "b.png"); Demo.item []]))
            Demo.guardedWorld)
  = events (delete (P := Demo.platform) (instance Demo.options)
              (ManyFiles [Demo.item (lit "a.png")]) Demo.guardedWorld)
    ++ events (delete (P := Demo.platform) (instance Demo.options)
                 (ManyFiles [Demo.item (lit "b.png"); Demo.item []])
                 (world (delete (P := Demo.platform) (instance Demo.options)
                           (ManyFiles [Demo.item (lit "a.png")])
                           Demo.guardedWorld))).
Proof.
  destruct (@delete_append Demo.platform (instance Demo.options)
              [Demo.item (lit "a.png")]
              [Demo.item (lit "b.png"); Demo.item []]
              Demo.guardedWorld) as (_ & He & _).
  - reflexivity.
  - exact He.
Defined.



End MoreRuns.
